(** * Multi-set alignment metrics of [src/eval.py]

    A shallow embedding of the three helpers of [src/eval.py]
    ([compute_msa_per_label], [compute_msa], [summarize_msa]) and the
    properties stated about them.

    Modelling choices, all taken from the Python source:
    - a Python [int] is a [Z], a Python [float] is an IEEE binary64 value
      (Rocq's primitive [float]), [len] is [Z.of_nat (length _)];
    - a label mapping ([dict] from label to list of [[x, y]] points) is a
      [gmap string (list Point)], a Python [set] of labels is a [gset string];
      a [for] loop over a set visits [elements] of it, each label once;
    - an exception is a value of [exn] carried by the [result] monad:
      [d[k]] raises [KeyError], NumPy indexing raises [IndexError], [/] by
      zero raises [ZeroDivisionError];
    - [np.mean] returns a [numpy.float64], not a Python [float]: a [number]
      is a binary64 value tagged with its class, which [+] and [*]
      propagate and which decides what [round(_, 2)] computes; [np.mean]
      adds the values pairwise, as NumPy does for a contiguous array;
    - [scipy.optimize.linear_sum_assignment] is imported by the source, not
      defined in it: every definition that calls it takes the solver as its
      first argument. *)

From Stdlib Require Import ZArith Lia Floats.
From stdpp Require Import base option list sorting gmap sets strings.

Local Open Scope Z_scope.

(** ** Exceptions *)

Inductive exn : Type :=
  | KeyError (key : string)
  | IndexError
  | ZeroDivisionError.

Inductive result (A : Type) : Type :=
  | Ok (a : A)
  | Raise (e : exn).
Arguments Ok {A} a.
Arguments Raise {A} e.

#[global] Instance result_ret : MRet result := fun _ a => Ok a.
#[global] Instance result_bind : MBind result := fun _ _ f m =>
  match m with
  | Ok a => f a
  | Raise e => Raise e
  end.

(** [for x in xs: st = body st x], stopping at the first exception. *)
Fixpoint for_each {S A : Type} (body : S -> A -> result S) (xs : list A) (st : S)
  : result S :=
  match xs with
  | [] => Ok st
  | x :: xs' => st' ← body st x; for_each body xs' st'
  end.

(** [[f(a, b) for a, b in zip(xs, ys)]] where [f] may raise: [zip] stops at
    the end of the shorter list. *)
Fixpoint for_zip {A B C : Type} (f : A -> B -> result C) (xs : list A) (ys : list B)
  : result (list C) :=
  match xs, ys with
  | x :: xs', y :: ys' => c ← f x y; cs ← for_zip f xs' ys'; mret (c :: cs)
  | _, _ => Ok []
  end.

(** ** Python and NumPy primitives *)

Definition len {A : Type} (l : list A) : Z := Z.of_nat (length l).

Definition len_set (X : gset string) : Z := Z.of_nat (size X).

(** [d[k]] *)
Definition getitem {V : Type} (d : gmap string V) (k : string) : result V :=
  match d !! k with
  | Some v => Ok v
  | None => Raise (KeyError k)
  end.

(** Conversion of an [int] to the nearest [float] (exact below [2^53]).
    Python raises [OverflowError] from [2^1024] on, where this model gives
    infinity; the integers converted here are counts of labels and points. *)
Definition float_of_int (z : Z) : float :=
  SF2Prim (binary_normalize prec emax z 0 false).

(** [a / b] on two [int]s: true division, the quotient of the two converted
    values (the correctly rounded quotient when both are below [2^53]). *)
Definition truediv_int (a b : Z) : result float :=
  if b =? 0 then Raise ZeroDivisionError
  else Ok (float_of_int a / float_of_int b)%float.

(** [a / b] on two [float]s. *)
Definition truediv (a b : float) : result float :=
  if (b =? 0)%float then Raise ZeroDivisionError else Ok (a / b)%float.

(** [a / b] on a [float] and an [int]: the [int] is converted first, and the
    converted divisor is zero exactly when [b] is. *)
Definition truediv_float_int (a : float) (b : Z) : result float :=
  if b =? 0 then Raise ZeroDivisionError else Ok (a / float_of_int b)%float.

(** [round_half_even num den]: the integer nearest to [num / den] for
    [0 < den], the even one when the quotient lies half-way. *)
Definition round_half_even (num den : Z) : Z :=
  let q := num / den in
  let r := num mod den in
  match (2 * r ?= den) with
  | Lt => q
  | Gt => q + 1
  | Eq => if Z.even q then q else q + 1
  end.

(** [round(x, 2)] on a Python [float] ([float.__round__]): the decimal with
    two fractional digits nearest to the exact value of [x] (ties to the
    even digit), converted back to the nearest [float]; zeros, infinities
    and NaN are returned unchanged. *)
Definition round2 (x : float) : float :=
  match Prim2SF x with
  | S754_finite s m e =>
      let k := if 0 <=? e then Z.pos m * 100 * 2 ^ e
               else round_half_even (Z.pos m * 100) (2 ^ (- e)) in
      match k with
      | Z.pos p => SF2Prim (SFdiv prec emax (S754_finite s p 0) (S754_finite false 100 0))
      | _ => if s then (-0)%float else 0%float
      end
  | _ => x
  end.

(** [numpy.rint]: the nearest integer in binary64, the even one on a tie,
    with the sign of [x]; integers, zeros, infinities and NaN are returned
    unchanged. *)
Definition rint (x : float) : float :=
  match Prim2SF x with
  | S754_finite s m e =>
      if 0 <=? e then x
      else let k := float_of_int (round_half_even (Z.pos m) (2 ^ (- e))) in
           if s then (- k)%float else k
  | _ => x
  end.

(** [round(x, 2)] on a [numpy.float64] ([numpy.float64.__round__], which is
    [numpy.round]): [rint(x * 100.0) / 100.0], the three operations in
    binary64. It differs from [round] on a Python [float]: [2.675] gives
    [2.68] here and [2.67] there. *)
Definition np_round2 (x : float) : float :=
  (rint (x * 100) / 100)%float.

(** A Python [float] or a [numpy.float64]: both hold a binary64 value, and
    the class decides how [/] by zero and [round] behave. A literal such as
    [0.0] or [float("inf")] is a Python [float]. *)
Inductive number : Type :=
  | PyFloat (v : float)
  | NpFloat64 (v : float).

Coercion PyFloat : float >-> number.

Definition float_value (a : number) : float :=
  match a with
  | PyFloat v => v
  | NpFloat64 v => v
  end.

Definition is_numpy (a : number) : bool :=
  match a with
  | PyFloat _ => false
  | NpFloat64 _ => true
  end.

(** [a * k] for an [int] [k]: the product has the class of [a]. *)
Definition mul_number_int (a : number) (k : Z) : number :=
  match a with
  | PyFloat v => PyFloat (v * float_of_int k)
  | NpFloat64 v => NpFloat64 (v * float_of_int k)
  end.

(** [a + b]: a [numpy.float64] as soon as one of the two is. *)
Definition add_number (a b : number) : number :=
  match a, b with
  | PyFloat v, PyFloat w => PyFloat (v + w)
  | _, _ => NpFloat64 (float_value a + float_value b)
  end.

(** [a / k] for an [int] [k]: a Python [float] raises [ZeroDivisionError]
    when [k] is zero, a [numpy.float64] returns an infinity or NaN there
    (with a warning). *)
Definition truediv_number_int (a : number) (k : Z) : result number :=
  match a with
  | PyFloat v => q ← truediv_float_int v k; mret (PyFloat q)
  | NpFloat64 v => mret (NpFloat64 (v / float_of_int k))
  end.

(** [round(a, 2)]: the builtin calls [__round__] of the class of [a]. *)
Definition round2_number (a : number) : number :=
  match a with
  | PyFloat v => PyFloat (round2 v)
  | NpFloat64 v => NpFloat64 (np_round2 v)
  end.

(** A point is the two-element list [[x, y]]. *)
Definition Point : Type := float * float.

(** [np.linalg.norm(np.array(g) - np.array(p))] *)
Definition norm_diff (g p : Point) : float :=
  let dx := (g.1 - p.1)%float in
  let dy := (g.2 - p.2)%float in
  PrimFloat.sqrt (dx * dx + dy * dy)%float.

(** [res += x] for every [x] of [xs], in order. *)
Definition add_all (res : float) (xs : list float) : float :=
  foldl (fun acc x => (acc + x)%float) res xs.

(** The loop of NumPy's unrolled block: eight accumulators [r], to which
    the next eight values of [a] are added, [blocks] times. *)
Fixpoint accumulate8 (blocks : nat) (r a : list float) : list float :=
  match blocks with
  | O => r
  | S blocks' =>
      accumulate8 blocks' (zip_with (fun x y => (x + y)%float) r (take 8 a)) (drop 8 a)
  end.

(** [((r[0] + r[1]) + (r[2] + r[3])) + ((r[4] + r[5]) + (r[6] + r[7]))];
    [r] always holds eight accumulators. *)
Definition combine8 (r : list float) : float :=
  match r with
  | [r0; r1; r2; r3; r4; r5; r6; r7] =>
      (((r0 + r1) + (r2 + r3)) + ((r4 + r5) + (r6 + r7)))%float
  | _ => 0%float
  end.

(** NumPy's sum of a block of at least eight values: the accumulators start
    as the first eight values, take the following values eight at a time,
    are combined, and the [n mod 8] last values are added one by one. *)
Definition unrolled_sum (a : list float) : float :=
  let n := length a in
  add_all (combine8 (accumulate8 (n / 8 - 1) (take 8 a) (drop 8 a)))
          (drop (n - n mod 8) a).

(** NumPy's pairwise summation of a [float64] array: fewer than eight
    values are added one by one from [0.0], up to 128 values go through the
    unrolled block, a longer array is cut in two at half its length rounded
    down to a multiple of eight. Each level of the recursion takes one unit
    of [fuel]; the length of the array is more than enough
    ([pairwise_sum_fuel]). *)
Fixpoint pairwise_sum (fuel : nat) (a : list float) : float :=
  let n := length a in
  if (n <? 8)%nat then add_all 0%float a
  else if (n <=? 128)%nat then unrolled_sum a
  else match fuel with
       | O => unrolled_sum a
       | S fuel' =>
           let n2 := (n / 2 - (n / 2) mod 8)%nat in
           (pairwise_sum fuel' (take n2 a) + pairwise_sum fuel' (drop n2 a))%float
       end.

(** [a.sum()] of a one-dimensional [float64] array, [np.add.reduce]: the
    pairwise sum is added to the initial value [0.0]. *)
Definition np_sum (xs : list float) : float :=
  (0 + pairwise_sum (length xs) xs)%float.

(** [np.mean]: the sum divided by the number of values, a [numpy.float64]. *)
Definition np_mean (xs : list float) : number :=
  NpFloat64 (np_sum xs / float_of_int (len xs))%float.

(** [cost_matrix[i, j]] for one pair of indices. *)
Definition cell (cost_matrix : list (list float)) (i j : nat) : result float :=
  match cost_matrix !! i with
  | Some row => match row !! j with
                | Some c => Ok c
                | None => Raise IndexError
                end
  | None => Raise IndexError
  end.

(** [cost_matrix[rows, cols]]: the two index arrays are broadcast against
    each other (an array of length one is repeated), then paired. *)
Definition fancy_index (cost_matrix : list (list float)) (rows cols : list nat)
  : result (list float) :=
  match rows, cols with
  | [i], _ => for_zip (cell cost_matrix) (replicate (length cols) i) cols
  | _, [j] => for_zip (cell cost_matrix) rows (replicate (length rows) j)
  | _, _ => if (length rows =? length cols)%nat
            then for_zip (cell cost_matrix) rows cols
            else Raise IndexError
  end.

(** ** Data model *)

(** The dictionary returned by [compute_msa_per_label]. *)
Record per_label : Type := {
  average_euclidean_distance : number;
  num_matched : Z;
  false_positives : Z;
  false_negatives : Z;
}.

(** An entry of ["point_metrics_per_label"]: the per-label dictionary under
    its label; the keys ["precision"] and ["recall"] exist only in the
    entries synthesised for unmatched labels. *)
Record point_metric : Type := {
  label : string;
  stats : per_label;
  precision : option float;
  recall : option float;
}.

(** The dictionary built for one sample. *)
Record sample_metrics : Type := {
  num_matched_labels : Z;
  false_positive_labels : Z;
  false_negative_labels : Z;
  point_metrics_per_label : list point_metric;
}.

(** What the loops of [compute_msa] mutate: the list
    [metrics["point_metrics_per_label"]] and the two label sets. *)
Record loop_state : Type := {
  metrics : sample_metrics;
  fn_set : gset string;
  fp_set : gset string;
}.

(** [metrics["point_metrics_per_label"].append(pm)] *)
Definition append_metric (st : loop_state) (pm : point_metric) : loop_state :=
  {| metrics :=
       {| num_matched_labels := num_matched_labels (metrics st);
          false_positive_labels := false_positive_labels (metrics st);
          false_negative_labels := false_negative_labels (metrics st);
          point_metrics_per_label := point_metrics_per_label (metrics st) ++ [pm] |};
     fn_set := fn_set st;
     fp_set := fp_set st |}.

(** [false_negative_labels.add(l)] *)
Definition add_false_negative (st : loop_state) (l : string) : loop_state :=
  {| metrics := metrics st; fn_set := {[ l ]} ∪ fn_set st; fp_set := fp_set st |}.

(** [false_positive_labels.add(l)] *)
Definition add_false_positive (st : loop_state) (l : string) : loop_state :=
  {| metrics := metrics st; fn_set := fn_set st; fp_set := {[ l ]} ∪ fp_set st |}.

(** The arm of the [if]/[elif]/[elif] chain taken for a matched label. *)
Inductive branch : Type :=
  | run_point_matcher
  | to_false_negatives
  | to_false_positives
  | no_branch.

Definition select_branch (gt_points pred_points : list Point) : branch :=
  if (0 <? len gt_points) && (0 <? len pred_points) then run_point_matcher
  else if len gt_points <=? 0 then to_false_negatives
  else if len pred_points <=? 0 then to_false_positives
  else no_branch.

(** The entry appended for a label of [false_negative_labels]. *)
Definition fn_entry (l : string) (gt_points : list Point) : point_metric :=
  {| label := l;
     stats := {| average_euclidean_distance := 0%float;
                 num_matched := 0;
                 false_positives := 0;
                 false_negatives := len gt_points |};
     precision := Some 0%float;
     recall := Some 0%float |}.

(** The entry appended for a label of [false_positive_labels]. *)
Definition fp_entry (l : string) (pred_points : list Point) : point_metric :=
  {| label := l;
     stats := {| average_euclidean_distance := 0%float;
                 num_matched := 0;
                 false_positives := len pred_points;
                 false_negatives := 0 |};
     precision := Some 0%float;
     recall := Some 0%float |}.

(** ** [compute_msa_per_label] and [compute_msa] *)

(** A solver takes the cost matrix (a list of rows) and returns the arrays
    of row and column indices. *)
Definition solver : Type := list (list float) -> list nat * list nat.

Section WithSolver.

Variable linear_sum_assignment : solver.

Definition cost_matrix_of (gts preds : list Point) : list (list float) :=
  map (fun g => map (fun p => norm_diff g p) preds) gts.

Definition compute_msa_per_label (gts preds : list Point) : result per_label :=
  let n := len gts in
  let m := len preds in
  let cost_matrix := cost_matrix_of gts preds in
  let '(gt_indices, pred_indices) := linear_sum_assignment cost_matrix in
  matched_distances ← fancy_index cost_matrix gt_indices pred_indices;
  let num_matched := len gt_indices in
  mret {| average_euclidean_distance :=
            if 0 <? num_matched then np_mean matched_distances else 0%float;
          num_matched := num_matched;
          false_positives := m - num_matched;
          false_negatives := n - num_matched |}.

(** Body of [for label in matched_ids]. *)
Definition matched_step (gt_labels pred_labels : gmap string (list Point))
    (st : loop_state) (l : string) : result loop_state :=
  gt_points ← getitem gt_labels l;
  pred_points ← getitem pred_labels l;
  match select_branch gt_points pred_points with
  | run_point_matcher =>
      r ← compute_msa_per_label gt_points pred_points;
      mret (append_metric st
              {| label := l; stats := r; precision := None; recall := None |})
  | to_false_negatives => mret (add_false_negative st l)
  | to_false_positives => mret (add_false_positive st l)
  | no_branch => mret st
  end.

(** Body of [for label in false_negative_labels]. *)
Definition fn_step (gt_labels : gmap string (list Point))
    (st : loop_state) (l : string) : result loop_state :=
  gt_points ← getitem gt_labels l;
  mret (append_metric st (fn_entry l gt_points)).

(** Body of [for label in false_positive_labels]. *)
Definition fp_step (pred_labels : gmap string (list Point))
    (st : loop_state) (l : string) : result loop_state :=
  pred_points ← getitem pred_labels l;
  mret (append_metric st (fp_entry l pred_points)).

(** The state before the first loop: the three label sets and the
    [metrics] dictionary, whose counts are computed here. *)
Definition initial_state (gt_labels pred_labels : gmap string (list Point))
  : loop_state :=
  let gt_ids : gset string := dom gt_labels in
  let pred_ids : gset string := dom pred_labels in
  let matched_ids := gt_ids ∩ pred_ids in
  let false_negative_labels := gt_ids ∖ pred_ids in
  let false_positive_labels := pred_ids ∖ gt_ids in
  {| metrics :=
       {| num_matched_labels := len_set matched_ids;
          false_positive_labels := len_set false_positive_labels;
          false_negative_labels := len_set false_negative_labels;
          point_metrics_per_label := [] |};
     fn_set := false_negative_labels;
     fp_set := false_positive_labels |}.

(** The first loop, over [matched_ids]. *)
Definition matched_loop (gt_labels pred_labels : gmap string (list Point))
  : result loop_state :=
  let matched_ids : gset string := dom gt_labels ∩ dom pred_labels in
  for_each (matched_step gt_labels pred_labels) (elements matched_ids)
    (initial_state gt_labels pred_labels).

(** One iteration of [for gt_labels, pred_labels in zip(gt_list, pred_list)]. *)
Definition compute_msa_sample (gt_labels pred_labels : gmap string (list Point))
  : result sample_metrics :=
  st1 ← matched_loop gt_labels pred_labels;
  st2 ← for_each (fn_step gt_labels) (elements (fn_set st1)) st1;
  st3 ← for_each (fp_step pred_labels) (elements (fp_set st2)) st2;
  mret (metrics st3).

Definition compute_msa (gt_list pred_list : list (gmap string (list Point)))
  : result (list sample_metrics) :=
  for_zip compute_msa_sample gt_list pred_list.

End WithSolver.

(** ** [summarize_msa] *)

(** The dictionary [total_labels]. *)
Record label_totals : Type := {
  tl_matched : Z;
  tl_fp : Z;
  tl_fn : Z;
}.

(** The dictionary [total_points]. *)
Record point_totals : Type := {
  tp_matched : Z;
  tp_fp : Z;
  tp_fn : Z;
  tp_euclidean_distance : number;
}.

(** The value of ["label_metrics"]. *)
Record label_summary : Type := {
  lm_precision : float;
  lm_recall : float;
  lm_f1 : float;
}.

(** The value of ["point_metrics"]. *)
Record point_summary : Type := {
  pm_precision : float;
  pm_recall : float;
  pm_f1 : float;
  pm_avg_euclidean_distance : number;
}.

Record summary : Type := {
  label_metrics : label_summary;
  point_metrics : point_summary;
}.

(** Body of [for point_metric in metric["point_metrics_per_label"]]. *)
Definition add_point_metric (tp : point_totals) (pm : point_metric) : point_totals :=
  {| tp_matched := tp_matched tp + num_matched (stats pm);
     tp_fp := tp_fp tp + false_positives (stats pm);
     tp_fn := tp_fn tp + false_negatives (stats pm);
     tp_euclidean_distance :=
       add_number (tp_euclidean_distance tp)
         (mul_number_int (average_euclidean_distance (stats pm)) (num_matched (stats pm))) |}.

(** Body of [for metric in msa]. *)
Definition add_sample (acc : label_totals * point_totals) (metric : sample_metrics)
  : label_totals * point_totals :=
  ({| tl_matched := tl_matched acc.1 + num_matched_labels metric;
      tl_fp := tl_fp acc.1 + false_positive_labels metric;
      tl_fn := tl_fn acc.1 + false_negative_labels metric |},
   foldl add_point_metric acc.2 (point_metrics_per_label metric)).

Definition totals (msa : list sample_metrics) : label_totals * point_totals :=
  foldl add_sample
    ({| tl_matched := 0; tl_fp := 0; tl_fn := 0 |},
     {| tp_matched := 0; tp_fp := 0; tp_fn := 0; tp_euclidean_distance := 0%float |})
    msa.

(** [matched / (matched + other) if other + matched > 0 else 0.0], the shape
    of the two precisions and the two recalls. *)
Definition guarded_ratio (matched other : Z) : result float :=
  if 0 <? other + matched then truediv_int matched (matched + other)
  else mret 0%float.

(** [2 * p * r / (p + r) if p + r > 0 else 0.0], the shape of the two F1. *)
Definition guarded_f1 (p r : float) : result float :=
  if (0 <? p + r)%float then truediv (2 * p * r)%float (p + r)%float
  else mret 0%float.

(** [dist / matched if matched > 0 else float("inf")] *)
Definition guarded_average (dist : number) (matched : Z) : result number :=
  if 0 <? matched then truediv_number_int dist matched
  else mret (PyFloat infinity).

Definition summarize_msa (msa : list sample_metrics) : result summary :=
  let '(total_labels, total_points) := totals msa in
  label_precision ← guarded_ratio (tl_matched total_labels) (tl_fp total_labels);
  label_recall ← guarded_ratio (tl_matched total_labels) (tl_fn total_labels);
  label_f1 ← guarded_f1 label_precision label_recall;
  point_precision ← guarded_ratio (tp_matched total_points) (tp_fp total_points);
  point_recall ← guarded_ratio (tp_matched total_points) (tp_fn total_points);
  point_f1 ← guarded_f1 point_precision point_recall;
  avg_euclidean_distance ←
    guarded_average (tp_euclidean_distance total_points) (tp_matched total_points);
  mret {| label_metrics :=
            {| lm_precision := round2 label_precision;
               lm_recall := round2 label_recall;
               lm_f1 := round2 label_f1 |};
          point_metrics :=
            {| pm_precision := round2 point_precision;
               pm_recall := round2 point_recall;
               pm_f1 := round2 point_f1;
               pm_avg_euclidean_distance := round2_number avg_euclidean_distance |} |}.

(** ** The assignment solver *)

(** [picks l]: every way of taking one element out of [l], with the rest. *)
Fixpoint picks {A : Type} (l : list A) : list (A * list A) :=
  match l with
  | [] => []
  | x :: l' => (x, l') :: map (fun yr => (yr.1, x :: yr.2)) (picks l')
  end.

(** The sequences of [k] distinct positions of [l], in every order. *)
Fixpoint arrangements {A : Type} (k : nat) (l : list A) : list (list A) :=
  match k with
  | O => [[]]
  | S k' => xr ← picks l; map (cons xr.1) (arrangements k' xr.2)
  end.

(** The sub-sequences of [l] of length [k], in the order of [l]. *)
Fixpoint combinations {A : Type} (k : nat) (l : list A) : list (list A) :=
  match k, l with
  | O, _ => [[]]
  | S _, [] => []
  | S k', x :: l' => map (cons x) (combinations k' l') ++ combinations k l'
  end.

(** The one-to-one pairings of [min n m] rows with as many columns of an
    [n] by [m] matrix: increasing row indices, distinct column indices. *)
Definition candidates (n m : nat) : list (list nat * list nat) :=
  let k := (n `min` m)%nat in
  rows ← combinations k (seq 0 n); cols ← arrangements k (seq 0 m); [(rows, cols)].

(** [cost_matrix[i, j]], read as [0.0] outside the matrix. *)
Definition cost_at (cost_matrix : list (list float)) (i j : nat) : float :=
  match cell cost_matrix i j with
  | Ok c => c
  | Raise _ => 0%float
  end.

(** [cost_matrix[rows, cols].sum()] *)
Definition total_cost (cost_matrix : list (list float)) (rc : list nat * list nat)
  : float :=
  np_sum (zip_with (cost_at cost_matrix) rc.1 rc.2).

(** The cheaper of two pairings, the first one on a tie. *)
Definition cheaper (cost_matrix : list (list float)) (best cand : list nat * list nat)
  : list nat * list nat :=
  if (total_cost cost_matrix cand <? total_cost cost_matrix best)%float
  then cand else best.

(** Modelled from the spec: [scipy.optimize.linear_sum_assignment] is
    imported by [src/eval.py] and its code is not part of the repository.
    The spec (section 4.1) describes it as the solver of the rectangular
    linear assignment problem, a minimum-cost matching of every point of the
    smaller side, which returns the cost-minimising one-to-one pairing. The
    model searches all such pairings and keeps one of least total cost; the
    row indices are returned in increasing order. *)
Definition linear_sum_assignment_ref : solver := fun cost_matrix =>
  let n := length cost_matrix in
  let m := match cost_matrix with [] => O | row :: _ => length row end in
  match candidates n m with
  | [] => ([], [])
  | c :: cs => foldl (cheaper cost_matrix) c cs
  end.

(** ** Quantities the statements refer to *)

(** A one-to-one pairing of size [min n m] between [n] ground-truth points
    and [m] predicted points, listed by increasing ground-truth index. *)
Definition is_pairing (n m : nat) (rows cols : list nat) : Prop :=
  length rows = (n `min` m)%nat /\ length cols = (n `min` m)%nat /\
  StronglySorted lt rows /\ Forall (fun i => (i < n)%nat) rows /\
  NoDup cols /\ Forall (fun j => (j < m)%nat) cols.

(** The Euclidean distances of the pairs [(rows[k], cols[k])]. *)
Definition pair_distances (gts preds : list Point) (rows cols : list nat) : list float :=
  zip_with (fun i j => match gts !! i, preds !! j with
                       | Some g, Some p => norm_diff g p
                       | _, _ => 0%float
                       end) rows cols.





(** All per-label entries of a corpus, in the order [summarize_msa] visits
    them. *)
Definition entries (msa : list sample_metrics) : list point_metric :=
  mjoin (map point_metrics_per_label msa).

(** Sum of [num_matched] over entries. *)
Definition total_num_matched (es : list point_metric) : Z :=
  foldr (fun e acc => num_matched (stats e) + acc) 0 es.

(** Sum of [average_euclidean_distance * num_matched] over entries, added
    from the first entry on, starting at [0.0]. *)
Definition weighted_distance_sum (es : list point_metric) : float :=
  foldl (fun acc e =>
           (acc + float_value (average_euclidean_distance (stats e))
                  * float_of_int (num_matched (stats e)))%float) 0%float es.

(** Whether some entry holds its average as a [numpy.float64]. *)
Definition has_numpy_average (es : list point_metric) : bool :=
  existsb (fun e => is_numpy (average_euclidean_distance (stats e))) es.

(** [k] is an integer nearest to the rational [num / den] (for [0 < den]),
    and is even when [num / den] lies half-way between two integers. *)
Definition nearest_even (k num den : Z) : Prop :=
  2 * Z.abs (k * den - num) <= den /\
  (2 * Z.abs (k * den - num) = den -> Z.even k = true).

(** [n] is the binary64 value [x] rounded to an integer: [x] itself when it
    is an integer, a zero, an infinity or NaN, and otherwise the integer
    nearest to [x] (the even one on a tie) with the sign of [x]. The value
    of a finite [x] is [m * 2 ^ e], negated when [s] holds. *)
Definition rounded_to_integer (x n : float) : Prop :=
  match Prim2SF x with
  | S754_finite s m e =>
      if 0 <=? e then n = x
      else exists k, nearest_even k (Z.pos m) (2 ^ (- e)) /\
             n = if s then (- float_of_int k)%float else float_of_int k
  | _ => n = x
  end.

(** [r] is [x] rounded to two decimals the way NumPy does it: [x] is
    multiplied by [100], the product is rounded to an integer, and that
    integer is divided by [100], the product and the quotient being
    binary64 operations. *)
Definition hundredths_numpy (x r : float) : Prop :=
  exists n, rounded_to_integer (x * 100) n /\ r = (n / 100)%float.

(** [r] is [x] rounded to two decimals the way Python's [float] does it:
    [k] is the integer nearest to a hundred times the exact value of [x]
    (the even one on a tie), and [r] is the binary64 quotient of [k] by
    [100] with the sign of [x]; a zero, an infinity or NaN is unchanged. *)
Definition hundredths_python (x r : float) : Prop :=
  match Prim2SF x with
  | S754_finite s m e =>
      exists k, nearest_even k (Z.pos m * 100 * 2 ^ Z.max 0 e) (2 ^ Z.max 0 (- e)) /\
        r = match k with
            | Z.pos p =>
                SF2Prim (SFdiv prec emax (S754_finite s p 0) (S754_finite false 100 0))
            | _ => if s then (-0)%float else 0%float
            end
  | _ => r = x
  end.

(** The points a mapping has for a label, none when the label is absent. *)
Definition points_of (labels : gmap string (list Point)) (l : string) : list Point :=
  default [] (labels !! l).

(** The two label sets when the first loop of [compute_msa] has run. *)
Definition reclassified (lsa : solver) (gt_labels pred_labels : gmap string (list Point))
  : result (gset string * gset string) :=
  st ← matched_loop lsa gt_labels pred_labels; mret (fn_set st, fp_set st).

(** [metrics["point_metrics_per_label"]] in a loop state. *)
Abbreviation pml st := (point_metrics_per_label (metrics st)).

(** An entry written by the first loop: the result of the point matcher on
    the two non-empty point lists of its label. *)
Definition matched_entry (lsa : solver) (gt pred : gmap string (list Point))
    (e : point_metric) : Prop :=
  exists gp pp, gt !! label e = Some gp /\ pred !! label e = Some pp /\
    gp <> [] /\ pp <> [] /\ compute_msa_per_label lsa gp pp = Ok (stats e) /\
    precision e = None /\ recall e = None.

(** The dictionary of a sample, from the state the first loop leaves. *)
Definition finish (gt pred : gmap string (list Point)) (st1 : loop_state)
  : sample_metrics :=
  {| num_matched_labels := num_matched_labels (metrics st1);
     false_positive_labels := false_positive_labels (metrics st1);
     false_negative_labels := false_negative_labels (metrics st1);
     point_metrics_per_label :=
       pml st1
       ++ map (fun l => fn_entry l (points_of gt l)) (elements (fn_set st1))
       ++ map (fun l => fp_entry l (points_of pred l)) (elements (fp_set st1)) |}.

(** A label present in both mappings with exactly one empty point list. *)
Definition one_sided (gt pred : gmap string (list Point)) (l : string) : Prop :=
  exists gp pp, gt !! l = Some gp /\ pred !! l = Some pp /\
    ((gp = [] /\ pp <> []) \/ (gp <> [] /\ pp = [])).

(** What every caller of the solver relies on: for the cost matrix of [n]
    ground-truth points and [m] predicted points it returns the two index
    arrays of a one-to-one pairing of size [min n m]. *)
Definition solver_contract (lsa : solver) : Prop :=
  forall gts preds,
    is_pairing (length gts) (length preds)
      (lsa (cost_matrix_of gts preds)).1 (lsa (cost_matrix_of gts preds)).2.

(** ** Sample inputs *)

(** A label present on both sides, with no ground-truth point and one
    predicted point: [{"A": []}] against [{"A": [[0.0, 0.0]]}]. *)
Definition gt_one_sided : gmap string (list Point) := {[ "A" := [] ]}.
Definition pred_one_sided : gmap string (list Point) := {[ "A" := [(0, 0)%float] ]}.

(** A sample with a matched label of unequal sizes (["A"]), a matched label
    whose ground truth is empty (["B"]), and a label on each side only. *)
Definition gt_sample : gmap string (list Point) :=
  <[ "A" := [(0, 0); (10, 10)]%float ]>
    (<[ "B" := [] ]> {[ "C" := [(1, 1)%float] ]}).
Definition pred_sample : gmap string (list Point) :=
  <[ "A" := [(0, 1)%float] ]>
    (<[ "B" := [(1, 1)%float] ]> {[ "D" := [(1, 1)%float] ]}).

Definition zero_stats : per_label :=
  {| average_euclidean_distance := 0%float; num_matched := 0;
     false_positives := 0; false_negatives := 0 |}.

(** What [compute_msa] returns for the sample above. *)
Definition metrics_sample : sample_metrics :=
  {| num_matched_labels := 2;
     false_positive_labels := 1;
     false_negative_labels := 1;
     point_metrics_per_label :=
       [ {| label := "A";
            stats := {| average_euclidean_distance := NpFloat64 1; num_matched := 1;
                        false_positives := 0; false_negatives := 1 |};
            precision := None; recall := None |};
         fn_entry "C" [(1, 1)%float];
         fn_entry "B" [];
         fp_entry "D" [(1, 1)%float] ] |}.

(** A corpus of one entry whose matched distance, [0.125], has three
    decimals: what [compute_msa] returns for [{"A": [[0.0, 0.0]]}] against
    [{"A": [[0.0, 0.125]]}]. *)
Definition gt_eighth : gmap string (list Point) := {[ "A" := [(0, 0)%float] ]}.
Definition pred_eighth : gmap string (list Point) := {[ "A" := [(0, 0.125)%float] ]}.

Definition msa_eighth : list sample_metrics :=
  [ {| num_matched_labels := 1;
       false_positive_labels := 0;
       false_negative_labels := 0;
       point_metrics_per_label :=
         [ {| label := "A";
              stats := {| average_euclidean_distance := NpFloat64 0.125; num_matched := 1;
                          false_positives := 0; false_negatives := 0 |};
              precision := None; recall := None |} ] |} ].

(** ** Predictions as label mappings *)

(** The output schema of the model: the classes [Point] and [Substructure];
    a prediction is the list under ["substructures"]. *)
Module Schema.

Record Point : Type := {
  x : float;
  y : float;
}.

Record Substructure : Type := {
  name : string;
  points : list Point;
}.

End Schema.

(** The dictionary comprehension of [main] for one prediction,
    [{s["name"]: [[p["x"], p["y"]] for p in s["points"]] for s in pred}]:
    the substructures are entered in order, a later one replacing an earlier
    one of the same name. *)
Definition prediction_labels (pred : list Schema.Substructure)
  : gmap string (list Point) :=
  foldl (fun d substructure =>
           <[ Schema.name substructure :=
                map (fun point => (Schema.x point, Schema.y point))
                    (Schema.points substructure) ]> d)
        ∅ pred.

(** ** Sums over entries and mappings *)

(** [sum(f(a) for a in l)] over integers. *)
Definition sumZ {A : Type} (f : A -> Z) (l : list A) : Z :=
  foldr (fun a acc => f a + acc) 0 l.

(** The number of points of a mapping, over all its labels. *)
Definition total_points (labels : gmap string (list Point)) : Z :=
  sumZ (fun l => len (points_of labels l)) (elements (dom labels)).

(** A sample without a one-sided label, and a prediction that names ["A"]
    twice. *)
Definition gt_plain : gmap string (list Point) :=
  <[ "A" := [(0, 0); (10, 10)]%float ]> {[ "C" := [(1, 1)%float] ]}.
Definition pred_plain : gmap string (list Point) :=
  <[ "A" := [(0, 1)%float] ]> {[ "D" := [(1, 1)%float] ]}.

Definition metrics_plain : sample_metrics :=
  {| num_matched_labels := 1;
     false_positive_labels := 1;
     false_negative_labels := 1;
     point_metrics_per_label :=
       [ {| label := "A";
            stats := {| average_euclidean_distance := NpFloat64 1; num_matched := 1;
                        false_positives := 0; false_negatives := 1 |};
            precision := None; recall := None |};
         fn_entry "C" [(1, 1)%float];
         fp_entry "D" [(1, 1)%float] ] |}.

Definition pred_twice : list Schema.Substructure :=
  [ {| Schema.name := "A"; Schema.points := [ {| Schema.x := 1; Schema.y := 2 |} ] |};
    {| Schema.name := "B"; Schema.points := [] |};
    {| Schema.name := "A"; Schema.points := [ {| Schema.x := 3; Schema.y := 4 |} ] |} ]%float.

(** * Properties *)

(** ** The [result] monad and the loops *)

Lemma bind_Ok {A B : Type} (m : result A) (f : A -> result B) (b : B) :
  m ≫= f = Ok b <-> exists a, m = Ok a /\ f a = Ok b.
Proof.
  destruct m as [a|e]; simpl; split.
  - intros H. exists a. split; [reflexivity|exact H].
  - intros (a' & Ha & Hf). injection Ha as ->. exact Hf.
  - discriminate.
  - intros (a' & Ha & _). discriminate.
Qed.

Ltac inv_bind H :=
  let a := fresh "a" in
  let Ha := fresh "Ha" in
  apply bind_Ok in H; destruct H as (a & Ha & H).

Lemma getitem_Ok {V : Type} (d : gmap string V) (k : string) (v : V) :
  getitem d k = Ok v <-> d !! k = Some v.
Proof.
  unfold getitem. destruct (d !! k); split; intros H; congruence.
Qed.

(** A loop whose body cannot raise on the elements it visits is a fold. *)
Lemma for_each_pure {S A : Type} (body : S -> A -> result S) (step : S -> A -> S)
    (xs : list A) (st : S) :
  (forall s x, x ∈ xs -> body s x = Ok (step s x)) ->
  for_each body xs st = Ok (foldl step st xs).
Proof.
  revert st. induction xs as [|x xs IH]; intros st Hb; simpl; [reflexivity|].
  rewrite Hb by left. simpl. apply IH. intros s y Hy. apply Hb. now right.
Qed.

Lemma for_zip_length {A B C : Type} (f : A -> B -> result C) xs ys cs :
  for_zip f xs ys = Ok cs -> length cs = (length xs `min` length ys)%nat.
Proof.
  revert ys cs. induction xs as [|x xs IH]; intros [|y ys] cs H; simpl in *;
    try (injection H as <-; reflexivity).
  inv_bind H. inv_bind H. injection H as <-. simpl. f_equal. eauto.
Qed.

Lemma for_zip_take {A B C : Type} (f : A -> B -> result C) xs ys :
  for_zip f xs ys =
  for_zip f (take (length xs `min` length ys) xs) (take (length xs `min` length ys) ys).
Proof.
  revert ys. induction xs as [|x xs IH]; intros [|y ys]; simpl; try reflexivity.
  rewrite <- IH. reflexivity.
Qed.

Lemma for_zip_lookup {A B C : Type} (f : A -> B -> result C) xs ys cs i c :
  for_zip f xs ys = Ok cs -> cs !! i = Some c ->
  exists x y, xs !! i = Some x /\ ys !! i = Some y /\ f x y = Ok c.
Proof.
  revert ys cs i. induction xs as [|x xs IH]; intros [|y ys] cs i H Hi; simpl in *;
    try (injection H as <-; discriminate).
  inv_bind H. inv_bind H. injection H as <-.
  destruct i as [|i]; simpl in *.
  - injection Hi as <-. eauto.
  - eauto.
Qed.

Lemma for_zip_total {A B C : Type} (f : A -> B -> result C) xs ys :
  (forall x y, x ∈ xs -> y ∈ ys -> exists c, f x y = Ok c) ->
  exists cs, for_zip f xs ys = Ok cs.
Proof.
  revert ys. induction xs as [|x xs IH]; intros [|y ys] Hf; simpl; eauto.
  destruct (Hf x y) as [c ->]; [left|left|]. simpl.
  destruct (IH ys) as [cs ->].
  - intros x' y' Hx Hy. apply Hf; now right.
  - simpl. eauto.
Qed.

Lemma for_each_ind {S A : Type} (body : S -> A -> result S)
    (R : list A -> S -> S -> Prop) :
  (forall st, R [] st st) ->
  (forall x xs st st1 st',
      body st x = Ok st1 -> for_each body xs st1 = Ok st' -> R xs st1 st' ->
      R (x :: xs) st st') ->
  forall xs st st', for_each body xs st = Ok st' -> R xs st st'.
Proof.
  intros Hnil Hcons xs. induction xs as [|x xs IH]; intros st st' H; simpl in H.
  - injection H as <-. apply Hnil.
  - inv_bind H. eapply Hcons; eauto.
Qed.

(** ** The arms of the [if]/[elif] chain *)

Lemma len_nil_iff {A : Type} (l : list A) : len l <= 0 <-> l = [].
Proof.
  unfold len. destruct l; simpl; split; intros H; try reflexivity; try discriminate; lia.
Qed.

Lemma len_pos_iff {A : Type} (l : list A) : 0 < len l <-> l <> [].
Proof.
  unfold len. destruct l; simpl; split; intros H; try congruence; try lia.
Qed.

Lemma select_branch_spec (gp pp : list Point) :
  match select_branch gp pp with
  | run_point_matcher => gp <> [] /\ pp <> []
  | to_false_negatives => gp = []
  | to_false_positives => gp <> [] /\ pp = []
  | no_branch => False
  end.
Proof.
  unfold select_branch.
  destruct (Z.ltb_spec 0 (len gp)) as [Hg|Hg];
    destruct (Z.ltb_spec 0 (len pp)) as [Hp|Hp]; simpl.
  - split; now apply len_pos_iff.
  - destruct (Z.leb_spec (len gp) 0); [lia|].
    destruct (Z.leb_spec (len pp) 0); [|lia].
    split; [now apply len_pos_iff|now apply len_nil_iff].
  - destruct (Z.leb_spec (len gp) 0); [|lia]. now apply len_nil_iff.
  - destruct (Z.leb_spec (len gp) 0); [|lia]. now apply len_nil_iff.
Qed.

(** ** The first loop of [compute_msa] *)

Lemma matched_step_spec lsa gt pred st l st' :
  matched_step lsa gt pred st l = Ok st' ->
  exists gp pp, gt !! l = Some gp /\ pred !! l = Some pp /\
    match select_branch gp pp with
    | run_point_matcher =>
        exists r, compute_msa_per_label lsa gp pp = Ok r /\
          st' = append_metric st
                  {| label := l; stats := r; precision := None; recall := None |}
    | to_false_negatives => st' = add_false_negative st l
    | to_false_positives => st' = add_false_positive st l
    | no_branch => st' = st
    end.
Proof.
  unfold matched_step. intros H.
  inv_bind H. apply getitem_Ok in Ha.
  inv_bind H. apply getitem_Ok in Ha0.
  exists a, a0. split; [assumption|]. split; [assumption|].
  destruct (select_branch a a0).
  - inv_bind H. injection H as <-. eauto.
  - injection H as <-. reflexivity.
  - injection H as <-. reflexivity.
  - injection H as <-. reflexivity.
Qed.

Lemma matched_steps_counts lsa gt pred ls st st' :
  for_each (matched_step lsa gt pred) ls st = Ok st' ->
  num_matched_labels (metrics st') = num_matched_labels (metrics st) /\
  false_positive_labels (metrics st') = false_positive_labels (metrics st) /\
  false_negative_labels (metrics st') = false_negative_labels (metrics st).
Proof.
  revert ls st st'. apply for_each_ind.
  - auto.
  - intros l ls st st1 st' Hstep _ (-> & -> & ->).
    apply matched_step_spec in Hstep as (gp & pp & _ & _ & Hb).
    destruct (select_branch gp pp).
    + destruct Hb as (r & _ & ->). auto.
    + subst st1. auto.
    + subst st1. auto.
    + subst st1. auto.
Qed.

Lemma matched_steps_lookups lsa gt pred ls st st' :
  for_each (matched_step lsa gt pred) ls st = Ok st' ->
  forall l, l ∈ ls -> is_Some (gt !! l) /\ is_Some (pred !! l).
Proof.
  revert ls st st'.
  apply (for_each_ind _ (fun ls _ _ =>
           forall l, l ∈ ls -> is_Some (gt !! l) /\ is_Some (pred !! l))).
  - intros _ l Hl. inversion Hl.
  - intros x ls st st1 st' Hstep _ IH l Hl.
    apply matched_step_spec in Hstep as (gp & pp & Hg & Hp & _).
    apply elem_of_cons in Hl as [->|Hl]; [|auto].
    rewrite Hg, Hp. eauto.
Qed.

Lemma matched_steps_fn lsa gt pred ls st st' :
  for_each (matched_step lsa gt pred) ls st = Ok st' ->
  forall l, l ∈ fn_set st' <-> l ∈ fn_set st \/ (l ∈ ls /\ gt !! l = Some []).
Proof.
  revert ls st st'.
  apply (for_each_ind _ (fun ls st st' =>
           forall l, l ∈ fn_set st' <-> l ∈ fn_set st \/ (l ∈ ls /\ gt !! l = Some []))).
  - intros st l. split; [auto|]. intros [H|[H _]]; [exact H|inversion H].
  - intros x ls st st1 st' Hstep _ IH l. rewrite IH, elem_of_cons.
    apply matched_step_spec in Hstep as (gp & pp & Hg & Hp & Hb).
    pose proof (select_branch_spec gp pp) as Hs.
    destruct (select_branch gp pp).
    + destruct Hb as (r & _ & ->). simpl. destruct Hs as [Hs _].
      split; [tauto|]. intros [H|[[->|H] H']]; try tauto. congruence.
    + subst st1 gp. simpl. rewrite elem_of_union, elem_of_singleton.
      split; [|tauto]. intros [[->|H]|H]; tauto.
    + subst st1. simpl. destruct Hs as [Hs _].
      split; [tauto|]. intros [H|[[->|H] H']]; try tauto. congruence.
    + destruct Hs.
Qed.

Lemma matched_steps_fp lsa gt pred ls st st' :
  for_each (matched_step lsa gt pred) ls st = Ok st' ->
  forall l, l ∈ fp_set st' <->
    l ∈ fp_set st \/
    (l ∈ ls /\ pred !! l = Some [] /\ exists gp, gt !! l = Some gp /\ gp <> []).
Proof.
  revert ls st st'.
  apply (for_each_ind _ (fun ls st st' =>
           forall l, l ∈ fp_set st' <->
             l ∈ fp_set st \/
             (l ∈ ls /\ pred !! l = Some [] /\ exists gp, gt !! l = Some gp /\ gp <> []))).
  - intros st l. split; [auto|]. intros [H|[H _]]; [exact H|inversion H].
  - intros x ls st st1 st' Hstep _ IH l. rewrite IH, elem_of_cons.
    apply matched_step_spec in Hstep as (gp & pp & Hg & Hp & Hb).
    pose proof (select_branch_spec gp pp) as Hs.
    destruct (select_branch gp pp).
    + destruct Hb as (r & _ & ->). simpl. destruct Hs as [_ Hs].
      split; [tauto|]. intros [H|[[->|H] H']]; try tauto. destruct H' as [H' _]. congruence.
    + subst st1 gp. simpl.
      split; [tauto|]. intros [H|[[->|H] H']]; try tauto.
      destruct H' as (_ & gp & Hg' & Hne). congruence.
    + subst st1. simpl. destruct Hs as [Hne ->].
      rewrite elem_of_union, elem_of_singleton.
      split; [|tauto]. intros [[->|H]|H]; [eauto 8|tauto|].
      right. destruct H as [H H']. auto.
    + destruct Hs.
Qed.

Lemma matched_steps_pml lsa gt pred ls st st' :
  for_each (matched_step lsa gt pred) ls st = Ok st' ->
  exists new, pml st' = pml st ++ new /\
    Forall (matched_entry lsa gt pred) new /\
    sublist (map label new) ls /\
    forall l, l ∈ map label new <->
      l ∈ ls /\ exists gp pp, gt !! l = Some gp /\ pred !! l = Some pp /\
                              gp <> [] /\ pp <> [].
Proof.
  revert ls st st'.
  apply (for_each_ind _ (fun ls st st' =>
    exists new, pml st' = pml st ++ new /\
      Forall (matched_entry lsa gt pred) new /\
      sublist (map label new) ls /\
      forall l, l ∈ map label new <->
        l ∈ ls /\ exists gp pp, gt !! l = Some gp /\ pred !! l = Some pp /\
                                gp <> [] /\ pp <> [])).
  - intros st. exists []. rewrite app_nil_r. split; [reflexivity|].
    split; [constructor|]. split; [constructor|]. intros l. simpl. split.
    + intros Hl. inversion Hl.
    + intros [Hl _]. inversion Hl.
  - intros x ls st st1 st' Hstep _ (new & Hpml & Hall & Hsub & Hlab).
    apply matched_step_spec in Hstep as (gp & pp & Hg & Hp & Hb).
    pose proof (select_branch_spec gp pp) as Hs.
    destruct (select_branch gp pp).
    + destruct Hb as (r & Hr & ->). destruct Hs as [Hgne Hpne].
      exists ({| label := x; stats := r; precision := None; recall := None |} :: new).
      simpl in Hpml. rewrite Hpml, <- app_assoc. simpl.
      split; [reflexivity|]. split; [|split].
      * constructor; [|exact Hall]. exists gp, pp. simpl. auto 10.
      * now apply sublist_skip.
      * intros l. rewrite !elem_of_cons, Hlab. split; [|tauto].
        intros [->|H]; [|tauto]. split; [now left|]. eauto 10.
    + subst st1. exists new. simpl in Hpml. split; [exact Hpml|].
      split; [exact Hall|]. split; [now apply sublist_cons|].
      intros l. rewrite Hlab, elem_of_cons. split; [tauto|].
      intros [[->|H] H']; [|tauto].
      destruct H' as (gp' & pp' & Hg' & _ & Hne & _). congruence.
    + subst st1. exists new. simpl in Hpml. split; [exact Hpml|].
      split; [exact Hall|]. split; [now apply sublist_cons|].
      intros l. rewrite Hlab, elem_of_cons. split; [tauto|].
      intros [[->|H] H']; [|tauto].
      destruct H' as (gp' & pp' & _ & Hp' & _ & Hne). destruct Hs as [_ ->]. congruence.
    + destruct Hs.
Qed.

(** ** The loops over the two label sets *)

Lemma foldl_append_metric (f : string -> point_metric) ls st :
  foldl (fun s l => append_metric s (f l)) st ls =
  {| metrics :=
       {| num_matched_labels := num_matched_labels (metrics st);
          false_positive_labels := false_positive_labels (metrics st);
          false_negative_labels := false_negative_labels (metrics st);
          point_metrics_per_label := pml st ++ map f ls |};
     fn_set := fn_set st;
     fp_set := fp_set st |}.
Proof.
  revert st. induction ls as [|l ls IH]; intros st; simpl.
  - rewrite app_nil_r. destruct st as [[] ? ?]. reflexivity.
  - rewrite IH. simpl. rewrite <- app_assoc. reflexivity.
Qed.

Lemma fn_loop_Ok gt ls st :
  (forall l, l ∈ ls -> is_Some (gt !! l)) ->
  for_each (fn_step gt) ls st =
  Ok (foldl (fun s l => append_metric s (fn_entry l (points_of gt l))) st ls).
Proof.
  intros Hdom. apply for_each_pure. intros s l Hl.
  destruct (Hdom l Hl) as [gp Hgp]. unfold fn_step, getitem, points_of.
  rewrite Hgp. reflexivity.
Qed.

Lemma fp_loop_Ok pred ls st :
  (forall l, l ∈ ls -> is_Some (pred !! l)) ->
  for_each (fp_step pred) ls st =
  Ok (foldl (fun s l => append_metric s (fp_entry l (points_of pred l))) st ls).
Proof.
  intros Hdom. apply for_each_pure. intros s l Hl.
  destruct (Hdom l Hl) as [pp Hpp]. unfold fp_step, getitem, points_of.
  rewrite Hpp. reflexivity.
Qed.

(** After the first loop every label of [false_negative_labels] is a key of
    the ground truth and every label of [false_positive_labels] a key of the
    prediction: the two later loops never raise [KeyError]. *)
Lemma matched_loop_fn_dom lsa gt pred st l :
  matched_loop lsa gt pred = Ok st -> l ∈ fn_set st -> is_Some (gt !! l).
Proof.
  unfold matched_loop. intros H Hl.
  apply (matched_steps_fn _ _ _ _ _ _ H) in Hl as [Hl|[_ Hl]].
  - simpl in Hl. apply elem_of_difference in Hl as [Hl _].
    now apply elem_of_dom in Hl.
  - rewrite Hl. eauto.
Qed.

Lemma matched_loop_fp_dom lsa gt pred st l :
  matched_loop lsa gt pred = Ok st -> l ∈ fp_set st -> is_Some (pred !! l).
Proof.
  unfold matched_loop. intros H Hl.
  apply (matched_steps_fp _ _ _ _ _ _ H) in Hl as [Hl|(_ & Hl & _)].
  - simpl in Hl. apply elem_of_difference in Hl as [Hl _].
    now apply elem_of_dom in Hl.
  - rewrite Hl. eauto.
Qed.

Lemma compute_msa_sample_spec lsa gt pred :
  compute_msa_sample lsa gt pred =
  st1 ← matched_loop lsa gt pred; mret (finish gt pred st1).
Proof.
  unfold compute_msa_sample.
  destruct (matched_loop lsa gt pred) as [st1|e] eqn:H1; simpl; [|reflexivity].
  rewrite fn_loop_Ok.
  2:{ intros l Hl. apply elem_of_elements in Hl. eapply matched_loop_fn_dom; eauto. }
  simpl. rewrite foldl_append_metric. simpl.
  rewrite fp_loop_Ok.
  2:{ intros l Hl. apply elem_of_elements in Hl. eapply matched_loop_fp_dom; eauto. }
  simpl. rewrite foldl_append_metric. simpl. unfold finish.
  rewrite <- app_assoc. reflexivity.
Qed.

(** ** One sample *)

Lemma compute_msa_lookup lsa gt_list pred_list all_metrics i m :
  compute_msa lsa gt_list pred_list = Ok all_metrics ->
  all_metrics !! i = Some m ->
  exists gt pred, gt_list !! i = Some gt /\ pred_list !! i = Some pred /\
    compute_msa_sample lsa gt pred = Ok m.
Proof. unfold compute_msa. apply for_zip_lookup. Qed.

Lemma compute_msa_sample_Ok lsa gt pred m :
  compute_msa_sample lsa gt pred = Ok m ->
  exists st1, matched_loop lsa gt pred = Ok st1 /\ m = finish gt pred st1.
Proof.
  rewrite compute_msa_sample_spec. intros H. inv_bind H.
  injection H as <-. eauto.
Qed.

Lemma compute_msa_sample_counts lsa gt pred m :
  compute_msa_sample lsa gt pred = Ok m ->
  num_matched_labels m = len_set (dom gt ∩ dom pred) /\
  false_positive_labels m = len_set (dom pred ∖ dom gt) /\
  false_negative_labels m = len_set (dom gt ∖ dom pred).
Proof.
  intros H. apply compute_msa_sample_Ok in H as (st1 & H1 & ->).
  unfold matched_loop in H1. apply matched_steps_counts in H1.
  simpl in *. exact H1.
Qed.

Lemma size_intersection_difference (X Y : gset string) :
  (size (X ∩ Y) + size (X ∖ Y))%nat = size X.
Proof.
  rewrite <- size_union.
  2:{ intros x. rewrite elem_of_intersection, elem_of_difference. tauto. }
  f_equal. apply set_eq. intros x.
  rewrite elem_of_union, elem_of_intersection, elem_of_difference.
  destruct (decide (x ∈ Y)); tauto.
Qed.

Lemma matched_loop_in_matched lsa gt pred st l gp pp :
  matched_loop lsa gt pred = Ok st -> gt !! l = Some gp -> pred !! l = Some pp ->
  (l ∈ elements (dom gt ∩ dom pred)) /\ (l ∉ fn_set (initial_state gt pred)) /\
  (l ∉ fp_set (initial_state gt pred)).
Proof.
  intros _ Hg Hp.
  assert (Hdg : l ∈ dom gt) by (apply elem_of_dom; eauto).
  assert (Hdp : l ∈ dom pred) by (apply elem_of_dom; eauto).
  rewrite elem_of_elements. simpl.
  rewrite elem_of_intersection, !elem_of_difference. tauto.
Qed.

(** ** Label counts (C2, C8) *)

(** C8: for every sample, [num_matched_labels + false_negative_labels] is
    the number of distinct labels of the ground-truth mapping and
    [num_matched_labels + false_positive_labels] the number of distinct
    labels of the predicted mapping: the three counts are taken from the
    initial intersection and differences, before any reclassification. *)
Theorem C8_label_counts_partition lsa gt_list pred_list all_metrics i gt pred m :
  compute_msa lsa gt_list pred_list = Ok all_metrics ->
  gt_list !! i = Some gt -> pred_list !! i = Some pred ->
  all_metrics !! i = Some m ->
  num_matched_labels m + false_negative_labels m = len_set (dom gt) /\
  num_matched_labels m + false_positive_labels m = len_set (dom pred).
Proof.
  intros H Hgt Hpred Hm.
  destruct (compute_msa_lookup _ _ _ _ _ _ H Hm) as (gt' & pred' & Hgt' & Hpred' & Hs).
  assert (gt' = gt) as -> by congruence.
  assert (pred' = pred) as -> by congruence.
  apply compute_msa_sample_counts in Hs as (-> & -> & ->).
  unfold len_set. rewrite <- !Nat2Z.inj_add. split; f_equal.
  - apply size_intersection_difference.
  - rewrite (comm_L (∩) (dom gt) (dom pred)). apply size_intersection_difference.
Qed.

Lemma C8_witness :
  num_matched_labels metrics_sample + false_negative_labels metrics_sample
    = len_set (dom gt_sample) /\
  num_matched_labels metrics_sample + false_positive_labels metrics_sample
    = len_set (dom pred_sample).
Proof.
  apply (C8_label_counts_partition linear_sum_assignment_ref
           [gt_sample] [pred_sample] [metrics_sample] 0%nat).
  - vm_compute. reflexivity.
  - reflexivity.
  - reflexivity.
  - reflexivity.
Defined.

(** C2, as stated, fails: for [{"A": []}] against [{"A": [[0.0, 0.0]]}] the
    first loop adds ["A"] to [false_negative_labels], so the set has one
    label after reclassification, while the returned
    ["false_negative_labels"] is [0]. *)
Lemma C2_counterexample :
  exists m fn fp,
    compute_msa_sample linear_sum_assignment_ref gt_one_sided pred_one_sided = Ok m /\
    reclassified linear_sum_assignment_ref gt_one_sided pred_one_sided = Ok (fn, fp) /\
    len_set fn = 1 /\ false_negative_labels m = 0 /\
    false_negative_labels m <> len_set fn.
Proof.
  eexists _, _, _. split; [vm_compute; reflexivity|].
  split; [vm_compute; reflexivity|].
  split; [vm_compute; reflexivity|].
  split; [reflexivity|]. vm_compute. discriminate.
Qed.

(** C2, amended: for every sample, [num_matched_labels],
    [false_positive_labels] and [false_negative_labels] are the sizes of the
    intersection and of the two differences of the label sets as they are
    before any reclassification. *)
Theorem C2_label_counts_before_reclassification
    lsa gt_list pred_list all_metrics i gt pred m :
  compute_msa lsa gt_list pred_list = Ok all_metrics ->
  gt_list !! i = Some gt -> pred_list !! i = Some pred ->
  all_metrics !! i = Some m ->
  num_matched_labels m = len_set (dom gt ∩ dom pred) /\
  false_positive_labels m = len_set (dom pred ∖ dom gt) /\
  false_negative_labels m = len_set (dom gt ∖ dom pred).
Proof.
  intros H Hgt Hpred Hm.
  destruct (compute_msa_lookup _ _ _ _ _ _ H Hm) as (gt' & pred' & Hgt' & Hpred' & Hs).
  assert (gt' = gt) as -> by congruence.
  assert (pred' = pred) as -> by congruence.
  now apply compute_msa_sample_counts in Hs.
Qed.

Lemma C2_witness :
  exists m,
    compute_msa linear_sum_assignment_ref [gt_one_sided] [pred_one_sided] = Ok [m] /\
    num_matched_labels m = len_set (dom gt_one_sided ∩ dom pred_one_sided) /\
    false_positive_labels m = len_set (dom pred_one_sided ∖ dom gt_one_sided) /\
    false_negative_labels m = len_set (dom gt_one_sided ∖ dom pred_one_sided).
Proof.
  eexists. split; [vm_compute; reflexivity|].
  eapply (C2_label_counts_before_reclassification linear_sum_assignment_ref
            [gt_one_sided] [pred_one_sided] _ 0%nat).
  - vm_compute. reflexivity.
  - reflexivity.
  - reflexivity.
  - reflexivity.
Defined.

(** ** Reclassification of matched labels (C1, C7, C9) *)

(** C7: for a label present in both mappings, the point matcher runs if and
    only if both point lists are non-empty, and then the first loop appends
    its result under that label; the label is added to
    [false_negative_labels] exactly when the ground-truth list is empty,
    whatever the predicted list, and to [false_positive_labels] exactly when
    the ground-truth list is non-empty and the predicted list is empty. With
    two empty lists the point matcher is not reached. *)
Theorem C7_branch_policy lsa gt pred st l gp pp :
  matched_loop lsa gt pred = Ok st ->
  gt !! l = Some gp -> pred !! l = Some pp ->
  (select_branch gp pp = run_point_matcher <-> gp <> [] /\ pp <> []) /\
  ((exists e, e ∈ pml st /\ label e = l) <-> gp <> [] /\ pp <> []) /\
  (forall e, e ∈ pml st -> label e = l ->
     compute_msa_per_label lsa gp pp = Ok (stats e)) /\
  (l ∈ fn_set st <-> gp = []) /\
  (l ∈ fp_set st <-> gp <> [] /\ pp = []) /\
  (gp = [] -> pp = [] -> select_branch gp pp = to_false_negatives).
Proof.
  intros H Hg Hp.
  destruct (matched_loop_in_matched _ _ _ _ _ _ _ H Hg Hp) as (Hin & Hnfn & Hnfp).
  unfold matched_loop in H.
  pose proof (matched_steps_fn _ _ _ _ _ _ H l) as Hfn.
  pose proof (matched_steps_fp _ _ _ _ _ _ H l) as Hfp.
  destruct (matched_steps_pml _ _ _ _ _ _ H) as (new & Hpml & Hall & _ & Hlab).
  simpl in Hpml. rewrite Hpml.
  pose proof (select_branch_spec gp pp) as Hs.
  split; [|split; [|split; [|split; [|split]]]].
  - split.
    + intros Hb. rewrite Hb in Hs. exact Hs.
    + intros [Hgne Hpne]. destruct (select_branch gp pp); try reflexivity.
      * congruence.
      * destruct Hs. congruence.
      * destruct Hs.
  - split.
    + intros (e & He & <-).
      assert (Hl : label e ∈ map label new) by (apply list_elem_of_fmap; eauto).
      apply Hlab in Hl as (_ & gp' & pp' & Hg' & Hp' & Hne).
      assert (gp' = gp) as -> by congruence.
      assert (pp' = pp) as -> by congruence. exact Hne.
    + intros Hne.
      assert (Hl : l ∈ map label new) by (apply Hlab; eauto 10).
      apply list_elem_of_fmap in Hl as (e & -> & He). eauto.
  - intros e He <-. rewrite Forall_forall in Hall.
    destruct (Hall e He) as (gp' & pp' & Hg' & Hp' & _ & _ & Hr & _).
    congruence.
  - rewrite Hfn. split.
    + intros [Hl|[_ Hl]]; [contradiction|congruence].
    + intros ->. auto.
  - rewrite Hfp. split.
    + intros [Hl|(_ & Hl & gp' & Hg' & Hne)]; [contradiction|].
      split; congruence.
    + intros [Hne ->]. right. eauto.
  - intros -> ->. reflexivity.
Qed.

Lemma C7_witness :
  exists st,
    matched_loop linear_sum_assignment_ref gt_sample pred_sample = Ok st /\
    (("B" : string) ∈ fn_set st <-> ([] : list Point) = []) /\
    (("B" : string) ∈ fp_set st <-> ([] : list Point) <> [] /\ [(1, 1)%float] = []).
Proof.
  eexists. split; [vm_compute; reflexivity|].
  match goal with
  | |- context [fn_set ?s] =>
      destruct (C7_branch_policy linear_sum_assignment_ref gt_sample pred_sample s "B"
                  [] [(1, 1)%float]) as (_ & _ & _ & Hfn & Hfp & _)
  end.
  - vm_compute. reflexivity.
  - reflexivity.
  - reflexivity.
  - split; assumption.
Defined.

Lemma finish_entries gt pred st1 e :
  e ∈ point_metrics_per_label (finish gt pred st1) <->
  e ∈ pml st1 \/
  (exists l, l ∈ fn_set st1 /\ e = fn_entry l (points_of gt l)) \/
  (exists l, l ∈ fp_set st1 /\ e = fp_entry l (points_of pred l)).
Proof.
  unfold finish. simpl. rewrite !elem_of_app, !list_elem_of_fmap.
  setoid_rewrite elem_of_elements.
  split.
  - intros [H|[(l & -> & H)|(l & -> & H)]]; eauto.
  - intros [H|[(l & H & ->)|(l & H & ->)]]; eauto.
Qed.

Lemma matched_loop_entry lsa gt pred st e :
  matched_loop lsa gt pred = Ok st -> e ∈ pml st -> matched_entry lsa gt pred e.
Proof.
  unfold matched_loop. intros H He.
  destruct (matched_steps_pml _ _ _ _ _ _ H) as (new & Hpml & Hall & _).
  simpl in Hpml. rewrite Hpml in He. rewrite Forall_forall in Hall. auto.
Qed.

(** C9: for a label present in both mappings whose ground-truth list is
    empty and whose predicted list is not, the sample has an entry for the
    label, and every entry for it has [num_matched = 0],
    [false_positives = 0], [false_negatives = 0] and
    [average_euclidean_distance = 0.0]; adding it to the point totals of
    [summarize_msa] leaves the three counts unchanged. *)
Theorem C9_empty_ground_truth_entry
    lsa gt_list pred_list all_metrics i gt pred m l pp :
  compute_msa lsa gt_list pred_list = Ok all_metrics ->
  gt_list !! i = Some gt -> pred_list !! i = Some pred ->
  all_metrics !! i = Some m ->
  gt !! l = Some [] -> pred !! l = Some pp -> pp <> [] ->
  (exists e, e ∈ point_metrics_per_label m /\ label e = l) /\
  forall e, e ∈ point_metrics_per_label m -> label e = l ->
    stats e = zero_stats /\
    forall tp, tp_matched (add_point_metric tp e) = tp_matched tp /\
               tp_fp (add_point_metric tp e) = tp_fp tp /\
               tp_fn (add_point_metric tp e) = tp_fn tp.
Proof.
  intros H Hgt Hpred Hm Hg Hp _.
  destruct (compute_msa_lookup _ _ _ _ _ _ H Hm) as (gt' & pred' & Hgt' & Hpred' & Hs).
  assert (gt' = gt) as -> by congruence.
  assert (pred' = pred) as -> by congruence.
  apply compute_msa_sample_Ok in Hs as (st1 & H1 & ->).
  destruct (matched_loop_in_matched _ _ _ _ _ _ _ H1 Hg Hp) as (Hin & Hnfn & Hnfp).
  pose proof (matched_steps_fn _ _ _ _ _ _ H1 l) as Hfn.
  pose proof (matched_steps_fp _ _ _ _ _ _ H1 l) as Hfp.
  assert (Hzero : forall e, e ∈ point_metrics_per_label (finish gt pred st1) ->
                    label e = l -> stats e = zero_stats).
  { intros e He Hl. apply finish_entries in He as [He|[(l' & Hl' & ->)|(l' & Hl' & ->)]].
    - apply (matched_loop_entry _ _ _ _ _ H1) in He
        as (gp' & pp' & Hg' & _ & Hne & _).
      rewrite Hl in Hg'. congruence.
    - simpl in Hl. subst l'. unfold fn_entry, points_of. rewrite Hg. reflexivity.
    - simpl in Hl. subst l'. apply Hfp in Hl' as [Hl'|(_ & _ & gp' & Hg' & Hne)].
      + contradiction.
      + congruence. }
  split.
  - exists (fn_entry l (points_of gt l)). split; [|reflexivity].
    apply finish_entries. right. left. exists l. split; [|reflexivity].
    apply Hfn. right. auto.
  - intros e He Hl. split; [auto|]. intros tp.
    unfold add_point_metric. rewrite (Hzero e He Hl). simpl.
    rewrite !Z.add_0_r. auto.
Qed.

Lemma C9_witness :
  exists e, e ∈ point_metrics_per_label metrics_sample /\ label e = "B" /\
            stats e = zero_stats.
Proof.
  destruct (C9_empty_ground_truth_entry linear_sum_assignment_ref
              [gt_sample] [pred_sample] [metrics_sample] 0%nat
              gt_sample pred_sample metrics_sample "B" [(1, 1)%float])
    as [(e & He & Hl) Hall].
  - vm_compute. reflexivity.
  - reflexivity.
  - reflexivity.
  - reflexivity.
  - reflexivity.
  - reflexivity.
  - discriminate.
  - exists e. split; [exact He|]. split; [exact Hl|]. apply Hall; assumption.
Defined.

(** The conservation equations hold on the other paths: for the result of
    the point matcher, whatever the solver returns, *)
Lemma compute_msa_per_label_conservation lsa (gts preds : list Point) r :
  compute_msa_per_label lsa gts preds = Ok r ->
  num_matched r + false_positives r = len preds /\
  num_matched r + false_negatives r = len gts.
Proof.
  unfold compute_msa_per_label.
  destruct (lsa (cost_matrix_of gts preds)) as [rows cols].
  intros H. inv_bind H. injection H as <-. simpl. lia.
Qed.

(** and for every entry of a sample whose label is not one-sided. *)
Lemma conservation_except_one_sided lsa gt pred m e :
  compute_msa_sample lsa gt pred = Ok m ->
  e ∈ point_metrics_per_label m ->
  ~ one_sided gt pred (label e) ->
  num_matched (stats e) + false_positives (stats e) = len (points_of pred (label e)) /\
  num_matched (stats e) + false_negatives (stats e) = len (points_of gt (label e)).
Proof.
  intros H He Hns. apply compute_msa_sample_Ok in H as (st1 & H1 & ->).
  apply finish_entries in He as [He|[(l & Hl & ->)|(l & Hl & ->)]].
  - apply (matched_loop_entry _ _ _ _ _ H1) in He
      as (gp & pp & Hg & Hp & _ & _ & Hr & _).
    unfold points_of. rewrite Hg, Hp. simpl.
    now apply compute_msa_per_label_conservation in Hr.
  - simpl in *. apply (matched_steps_fn _ _ _ _ _ _ H1) in Hl as [Hl|[Hin Hg]].
    + simpl in Hl. apply elem_of_difference in Hl as [_ Hl].
      apply not_elem_of_dom in Hl. unfold points_of. rewrite Hl. simpl.
      unfold len. simpl. lia.
    + destruct (matched_steps_lookups _ _ _ _ _ _ H1 l Hin) as [_ [pp Hp]].
      unfold points_of. rewrite Hg, Hp. simpl.
      destruct pp as [|p pp]; [split; reflexivity|].
      exfalso. apply Hns. exists [], (p :: pp). split; [exact Hg|].
      split; [exact Hp|]. left. split; [reflexivity|discriminate].
  - simpl in *.
    apply (matched_steps_fp _ _ _ _ _ _ H1) in Hl as [Hl|(Hin & Hp & gp & Hg & Hne)].
    + simpl in Hl. apply elem_of_difference in Hl as [_ Hl].
      apply not_elem_of_dom in Hl. unfold points_of. rewrite Hl. simpl.
      unfold len. simpl. lia.
    + exfalso. apply Hns. exists gp, []. auto.
Qed.

(** On a one-sided label they fail: its only entry has three zero counts. *)
Lemma one_sided_breaks_conservation lsa gt pred m l :
  compute_msa_sample lsa gt pred = Ok m ->
  one_sided gt pred l ->
  exists e, e ∈ point_metrics_per_label m /\ label e = l /\
    stats e = zero_stats /\
    (len (points_of pred l) <> 0 \/ len (points_of gt l) <> 0).
Proof.
  intros H (gp & pp & Hg & Hp & Hside).
  apply compute_msa_sample_Ok in H as (st1 & H1 & ->).
  destruct (matched_loop_in_matched _ _ _ _ _ _ _ H1 Hg Hp) as (Hin & _ & _).
  unfold points_of. rewrite Hg, Hp. simpl.
  destruct Hside as [[-> Hne]|[Hne ->]].
  - exists (fn_entry l (points_of gt l)). split; [|split; [reflexivity|split]].
    + apply finish_entries. right. left. exists l. split; [|reflexivity].
      apply (matched_steps_fn _ _ _ _ _ _ H1). right. auto.
    + unfold fn_entry, points_of. rewrite Hg. reflexivity.
    + left. apply len_pos_iff in Hne. lia.
  - exists (fp_entry l (points_of pred l)). split; [|split; [reflexivity|split]].
    + apply finish_entries. right. right. exists l. split; [|reflexivity].
      apply (matched_steps_fp _ _ _ _ _ _ H1). right. eauto.
    + unfold fp_entry, points_of. rewrite Hp. reflexivity.
    + right. apply len_pos_iff in Hne. lia.
Qed.

(** C1 fails on the code. For [{"A": []}] against [{"A": [[0.0, 0.0]]}]
    and any solver, the only entry emitted for ["A"] is the one of
    [false_negative_labels]: [num_matched + false_positives] is [0] although
    the label has one predicted point. With the two mappings exchanged the
    only entry is the one of [false_positive_labels]:
    [num_matched + false_negatives] is [0] although the label has one
    ground-truth point. *)
Theorem C1_one_sided_entry_drops_points (lsa : solver) :
  (compute_msa lsa [gt_one_sided] [pred_one_sided] =
     Ok [ {| num_matched_labels := 1;
             false_positive_labels := 0;
             false_negative_labels := 0;
             point_metrics_per_label := [fn_entry "A" []] |} ] /\
   num_matched (stats (fn_entry "A" [])) + false_positives (stats (fn_entry "A" [])) = 0 /\
   len (points_of pred_one_sided "A") = 1) /\
  (compute_msa lsa [pred_one_sided] [gt_one_sided] =
     Ok [ {| num_matched_labels := 1;
             false_positive_labels := 0;
             false_negative_labels := 0;
             point_metrics_per_label := [fp_entry "A" []] |} ] /\
   num_matched (stats (fp_entry "A" [])) + false_negatives (stats (fp_entry "A" [])) = 0 /\
   len (points_of pred_one_sided "A") = 1).
Proof.
  split; (split; [vm_compute; reflexivity|]); split; reflexivity.
Qed.

(** ** Comparisons of binary64 values *)

Lemma SFltb_zero_not_eq (x : spec_float) :
  SFltb (S754_zero false) x = true -> SFeqb x (S754_zero false) = false.
Proof.
  unfold SFltb, SFeqb. destruct x as [s|s| |s m e]; simpl; try discriminate.
  - destruct s; [discriminate|reflexivity].
  - destruct s; [discriminate|reflexivity].
Qed.

(** [x > 0] excludes [x == 0.0]: a division guarded by [> 0] does not
    raise. *)
Lemma ltb_zero_not_eqb (x : float) :
  (0 <? x)%float = true -> (x =? 0)%float = false.
Proof.
  rewrite FloatAxioms.ltb_spec, FloatAxioms.eqb_spec.
  change (Prim2SF 0%float) with (S754_zero false).
  apply SFltb_zero_not_eq.
Qed.

Lemma float_neq (x y : float) : Prim2SF x <> Prim2SF y -> x <> y.
Proof. intros H ->. now apply H. Qed.

(** ** [summarize_msa] never divides by zero (C5, C6) *)

Lemma guarded_ratio_Ok (matched other : Z) :
  guarded_ratio matched other =
  Ok (if 0 <? other + matched
      then (float_of_int matched / float_of_int (matched + other))%float
      else 0%float).
Proof.
  unfold guarded_ratio, truediv_int.
  destruct (Z.ltb_spec 0 (other + matched)) as [H|H]; [|reflexivity].
  destruct (Z.eqb_spec (matched + other) 0) as [H0|H0]; [lia|reflexivity].
Qed.

Lemma guarded_f1_Ok (p r : float) :
  guarded_f1 p r =
  Ok (if (0 <? p + r)%float then (2 * p * r / (p + r))%float else 0%float).
Proof.
  unfold guarded_f1, truediv.
  destruct (0 <? p + r)%float eqn:H; [|reflexivity].
  rewrite (ltb_zero_not_eqb _ H). reflexivity.
Qed.

Lemma guarded_average_Ok (dist : number) (matched : Z) :
  guarded_average dist matched =
  Ok (if 0 <? matched
      then match dist with
           | PyFloat v => PyFloat (v / float_of_int matched)
           | NpFloat64 v => NpFloat64 (v / float_of_int matched)
           end
      else PyFloat infinity).
Proof.
  unfold guarded_average, truediv_number_int, truediv_float_int.
  destruct (Z.ltb_spec 0 matched) as [H|H]; [|reflexivity].
  destruct dist as [v|v]; [|reflexivity].
  destruct (Z.eqb_spec matched 0) as [H0|H0]; [lia|reflexivity].
Qed.

Lemma summarize_msa_Ok (msa : list sample_metrics) :
  exists lp lr lf pp pr pf avg,
    guarded_ratio (tl_matched (totals msa).1) (tl_fp (totals msa).1) = Ok lp /\
    guarded_ratio (tl_matched (totals msa).1) (tl_fn (totals msa).1) = Ok lr /\
    guarded_f1 lp lr = Ok lf /\
    guarded_ratio (tp_matched (totals msa).2) (tp_fp (totals msa).2) = Ok pp /\
    guarded_ratio (tp_matched (totals msa).2) (tp_fn (totals msa).2) = Ok pr /\
    guarded_f1 pp pr = Ok pf /\
    guarded_average (tp_euclidean_distance (totals msa).2) (tp_matched (totals msa).2)
      = Ok avg /\
    summarize_msa msa =
    Ok {| label_metrics :=
            {| lm_precision := round2 lp; lm_recall := round2 lr; lm_f1 := round2 lf |};
          point_metrics :=
            {| pm_precision := round2 pp; pm_recall := round2 pr; pm_f1 := round2 pf;
               pm_avg_euclidean_distance := round2_number avg |} |}.
Proof.
  unfold summarize_msa. destruct (totals msa) as [tl tp]. simpl.
  do 7 eexists.
  split; [apply guarded_ratio_Ok|]. split; [apply guarded_ratio_Ok|].
  split; [apply guarded_f1_Ok|].
  split; [apply guarded_ratio_Ok|]. split; [apply guarded_ratio_Ok|].
  split; [apply guarded_f1_Ok|]. split; [apply guarded_average_Ok|].
  repeat (first [rewrite guarded_ratio_Ok | rewrite guarded_f1_Ok
                 | rewrite guarded_average_Ok];
          unfold mbind, result_bind; cbv beta iota).
  reflexivity.
Qed.

(** The nested loops of [summarize_msa] visit the entries of the corpus in
    order. *)
Lemma totals_points_flat (msa : list sample_metrics) acc :
  (foldl add_sample acc msa).2 = foldl add_point_metric acc.2 (entries msa).
Proof.
  revert acc. unfold entries. induction msa as [|metric msa IH]; intros acc; simpl.
  - reflexivity.
  - rewrite IH. simpl. rewrite foldl_app. reflexivity.
Qed.

Lemma foldl_add_point_metric_matched (es : list point_metric) tp :
  tp_matched (foldl add_point_metric tp es) = tp_matched tp + total_num_matched es.
Proof.
  revert tp. induction es as [|e es IH]; intros tp; simpl.
  - lia.
  - rewrite IH. simpl. lia.
Qed.

(** The value and the class of a sum and of a product. *)
Lemma float_value_add_number (a b : number) :
  float_value (add_number a b) = (float_value a + float_value b)%float.
Proof. destruct a, b; reflexivity. Qed.

Lemma is_numpy_add_number (a b : number) :
  is_numpy (add_number a b) = is_numpy a || is_numpy b.
Proof. destruct a, b; reflexivity. Qed.

Lemma float_value_mul_number_int (a : number) (k : Z) :
  float_value (mul_number_int a k) = (float_value a * float_of_int k)%float.
Proof. destruct a; reflexivity. Qed.

Lemma is_numpy_mul_number_int (a : number) (k : Z) :
  is_numpy (mul_number_int a k) = is_numpy a.
Proof. destruct a; reflexivity. Qed.

Lemma number_eta (a : number) :
  a = if is_numpy a then NpFloat64 (float_value a) else PyFloat (float_value a).
Proof. destruct a; reflexivity. Qed.

Lemma foldl_add_point_metric_distance (es : list point_metric) tp :
  float_value (tp_euclidean_distance (foldl add_point_metric tp es)) =
  foldl (fun acc e =>
           (acc + float_value (average_euclidean_distance (stats e))
                  * float_of_int (num_matched (stats e)))%float)
        (float_value (tp_euclidean_distance tp)) es.
Proof.
  revert tp. induction es as [|e es IH]; intros tp; simpl.
  - reflexivity.
  - rewrite IH. simpl.
    rewrite float_value_add_number, float_value_mul_number_int. reflexivity.
Qed.

(** The running total is a [numpy.float64] from the first entry on whose
    average is one. *)
Lemma foldl_add_point_metric_class (es : list point_metric) tp :
  is_numpy (tp_euclidean_distance (foldl add_point_metric tp es)) =
  is_numpy (tp_euclidean_distance tp) || has_numpy_average es.
Proof.
  revert tp. induction es as [|e es IH]; intros tp; simpl.
  - rewrite orb_false_r. reflexivity.
  - rewrite IH. simpl.
    rewrite is_numpy_add_number, is_numpy_mul_number_int, orb_assoc. reflexivity.
Qed.

Lemma totals_matched (msa : list sample_metrics) :
  tp_matched (totals msa).2 = total_num_matched (entries msa).
Proof.
  unfold totals. rewrite totals_points_flat, foldl_add_point_metric_matched.
  reflexivity.
Qed.

Lemma totals_distance (msa : list sample_metrics) :
  float_value (tp_euclidean_distance (totals msa).2)
    = weighted_distance_sum (entries msa).
Proof.
  unfold totals. rewrite totals_points_flat, foldl_add_point_metric_distance.
  reflexivity.
Qed.

Lemma totals_class (msa : list sample_metrics) :
  is_numpy (tp_euclidean_distance (totals msa).2) = has_numpy_average (entries msa).
Proof.
  unfold totals. rewrite totals_points_flat, foldl_add_point_metric_class.
  reflexivity.
Qed.

(** ** Rounding to two decimals (C5) *)

Lemma round_half_even_nearest (num den : Z) :
  0 < den -> nearest_even (round_half_even num den) num den.
Proof.
  intros Hden. unfold nearest_even, round_half_even.
  pose proof (Z.div_mod num den ltac:(lia)) as Hdm.
  pose proof (Z.mod_pos_bound num den Hden) as Hr.
  set (q := num / den) in *. set (r := num mod den) in *.
  destruct (Z.compare_spec (2 * r) den) as [Heq|Hlt|Hgt].
  - destruct (Z.even q) eqn:Heven.
    + split; [lia|]. intros _. exact Heven.
    + split; [lia|]. intros _.
      rewrite Z.even_add, Heven. reflexivity.
  - split; [lia|]. intros Htie. lia.
  - split; [lia|]. intros Htie. lia.
Qed.

Lemma rint_rounded (x : float) : rounded_to_integer x (rint x).
Proof.
  unfold rounded_to_integer, rint.
  destruct (Prim2SF x) as [s|s| |s m e]; try reflexivity.
  destruct (Z.leb_spec 0 e) as [He|He]; [reflexivity|].
  exists (round_half_even (Z.pos m) (2 ^ (- e))). split; [|reflexivity].
  apply round_half_even_nearest. apply Z.pow_pos_nonneg; lia.
Qed.

Lemma np_round2_hundredths (x : float) : hundredths_numpy x (np_round2 x).
Proof.
  exists (rint (x * 100)). split; [apply rint_rounded|reflexivity].
Qed.

Lemma round2_hundredths (x : float) : hundredths_python x (round2 x).
Proof.
  unfold hundredths_python, round2.
  destruct (Prim2SF x) as [s|s| |s m e]; try reflexivity.
  destruct (Z.leb_spec 0 e) as [He|He].
  - exists (Z.pos m * 100 * 2 ^ e). split; [|reflexivity].
    rewrite (Z.max_r 0 e), (Z.max_l 0 (- e)) by lia.
    unfold nearest_even. change (2 ^ 0) with 1. split; [lia|]. lia.
  - exists (round_half_even (Z.pos m * 100) (2 ^ (- e))). split; [|reflexivity].
    rewrite (Z.max_l 0 e), (Z.max_r 0 (- e)) by lia.
    change (2 ^ 0) with 1. rewrite Z.mul_1_r.
    apply round_half_even_nearest. apply Z.pow_pos_nonneg; lia.
Qed.

(** The two roundings differ: at [2.675], whose binary64 value lies below
    the decimal, NumPy's gives [2.68] and Python's [2.67]. *)
Lemma np_round2_is_not_round2 :
  np_round2 (2675 / 1000) = (268 / 100)%float /\
  round2 (2675 / 1000) = (267 / 100)%float.
Proof. split; vm_compute; reflexivity. Qed.

(** C5, as stated, fails: the returned value is rounded. For one entry with
    [average_euclidean_distance = 0.125] and [num_matched = 1] the quotient
    is [0.125] and [summarize_msa] returns [0.12], the value of
    [rint(12.5) / 100]. *)
Lemma C5_counterexample :
  exists s,
    compute_msa linear_sum_assignment_ref [gt_eighth] [pred_eighth] = Ok msa_eighth /\
    summarize_msa msa_eighth = Ok s /\
    0 < total_num_matched (entries msa_eighth) /\
    (weighted_distance_sum (entries msa_eighth)
     / float_of_int (total_num_matched (entries msa_eighth)))%float = 0.125%float /\
    pm_avg_euclidean_distance (point_metrics s) = NpFloat64 (12 / 100) /\
    float_value (pm_avg_euclidean_distance (point_metrics s)) <>
      (weighted_distance_sum (entries msa_eighth)
       / float_of_int (total_num_matched (entries msa_eighth)))%float.
Proof.
  eexists. split; [vm_compute; reflexivity|].
  split; [vm_compute; reflexivity|].
  split; [reflexivity|]. split; [vm_compute; reflexivity|].
  split; [vm_compute; reflexivity|].
  apply float_neq. vm_compute. discriminate.
Qed.

(** C5, amended: [summarize_msa] returns, as [avg_euclidean_distance], the
    sum over all per-label entries of
    [average_euclidean_distance * num_matched] divided by the total
    [num_matched], rounded to two decimals; when the total is zero (or not
    positive) it returns positive infinity. The rounding is the one of the
    class of the quotient. When some entry holds a [numpy.float64] average,
    as every entry written by the point matcher does, the quotient [q] is a
    [numpy.float64] and the result is [n / 100], where [n] is the binary64
    product [q * 100] rounded to the nearest integer, ties to even. When all
    averages are Python [float]s the result is the binary64 nearest to
    [k / 100], where [k] is the integer nearest to a hundred times the exact
    value of [q], ties to even. *)
Theorem C5_average_distance_rounded (msa : list sample_metrics) :
  exists s, summarize_msa msa = Ok s /\
    (total_num_matched (entries msa) <= 0 ->
     pm_avg_euclidean_distance (point_metrics s) = infinity) /\
    (0 < total_num_matched (entries msa) ->
     has_numpy_average (entries msa) = true ->
     exists r,
       pm_avg_euclidean_distance (point_metrics s) = NpFloat64 r /\
       hundredths_numpy
         (weighted_distance_sum (entries msa)
          / float_of_int (total_num_matched (entries msa))) r) /\
    (0 < total_num_matched (entries msa) ->
     has_numpy_average (entries msa) = false ->
     exists r,
       pm_avg_euclidean_distance (point_metrics s) = PyFloat r /\
       hundredths_python
         (weighted_distance_sum (entries msa)
          / float_of_int (total_num_matched (entries msa))) r).
Proof.
  destruct (summarize_msa_Ok msa)
    as (lp & lr & lf & pp & pr & pf & avg & _ & _ & _ & _ & _ & _ & Havg & ->).
  eexists. split; [reflexivity|]. simpl.
  rewrite guarded_average_Ok, totals_matched in Havg.
  rewrite (number_eta (tp_euclidean_distance (totals msa).2)) in Havg.
  rewrite totals_class, totals_distance in Havg.
  injection Havg as <-.
  destruct (Z.ltb_spec 0 (total_num_matched (entries msa))) as [Hpos|Hpos].
  - split; [lia|]. split; intros _ Hclass; rewrite Hclass; simpl.
    + eexists. split; [reflexivity|]. apply np_round2_hundredths.
    + eexists. split; [reflexivity|]. apply round2_hundredths.
  - split; [reflexivity|]. split; lia.
Qed.

(** C6: on the empty corpus [summarize_msa] returns [0.0] for the six
    precision, recall and F1 values and positive infinity for
    [avg_euclidean_distance]; on every corpus it returns without raising,
    and each precision, recall or F1 whose denominator is zero is [0.0]. *)
Theorem C6_zero_division_defaults :
  summarize_msa [] =
    Ok {| label_metrics :=
            {| lm_precision := 0%float; lm_recall := 0%float; lm_f1 := 0%float |};
          point_metrics :=
            {| pm_precision := 0%float; pm_recall := 0%float; pm_f1 := 0%float;
               pm_avg_euclidean_distance := infinity |} |} /\
  forall msa, exists s, summarize_msa msa = Ok s /\
    (tl_matched (totals msa).1 + tl_fp (totals msa).1 = 0 ->
       lm_precision (label_metrics s) = 0%float) /\
    (tl_matched (totals msa).1 + tl_fn (totals msa).1 = 0 ->
       lm_recall (label_metrics s) = 0%float) /\
    (tp_matched (totals msa).2 + tp_fp (totals msa).2 = 0 ->
       pm_precision (point_metrics s) = 0%float) /\
    (tp_matched (totals msa).2 + tp_fn (totals msa).2 = 0 ->
       pm_recall (point_metrics s) = 0%float) /\
    (forall p r,
       guarded_ratio (tl_matched (totals msa).1) (tl_fp (totals msa).1) = Ok p ->
       guarded_ratio (tl_matched (totals msa).1) (tl_fn (totals msa).1) = Ok r ->
       (p + r =? 0)%float = true -> lm_f1 (label_metrics s) = 0%float) /\
    (forall p r,
       guarded_ratio (tp_matched (totals msa).2) (tp_fp (totals msa).2) = Ok p ->
       guarded_ratio (tp_matched (totals msa).2) (tp_fn (totals msa).2) = Ok r ->
       (p + r =? 0)%float = true -> pm_f1 (point_metrics s) = 0%float).
Proof.
  split; [vm_compute; reflexivity|]. intros msa.
  destruct (summarize_msa_Ok msa)
    as (lp & lr & lf & pp & pr & pf & avg & Hlp & Hlr & Hlf & Hpp & Hpr & Hpf & _ & ->).
  eexists. split; [reflexivity|]. simpl.
  assert (Hratio : forall a b v, guarded_ratio a b = Ok v -> a + b = 0 ->
                     round2 v = 0%float).
  { intros a b v Hv H0. rewrite guarded_ratio_Ok in Hv. injection Hv as <-.
    destruct (Z.ltb_spec 0 (b + a)); [lia|reflexivity]. }
  assert (Hf1 : forall p r v, guarded_f1 p r = Ok v -> (p + r =? 0)%float = true ->
                  round2 v = 0%float).
  { intros p r v Hv H0. rewrite guarded_f1_Ok in Hv. injection Hv as <-.
    destruct (0 <? p + r)%float eqn:Hlt; [|reflexivity].
    apply ltb_zero_not_eqb in Hlt. congruence. }
  repeat split.
  - eauto.
  - eauto.
  - eauto.
  - eauto.
  - intros p r Hp Hr. assert (p = lp) as -> by congruence.
    assert (r = lr) as -> by congruence. eauto.
  - intros p r Hp Hr. assert (p = pp) as -> by congruence.
    assert (r = pr) as -> by congruence. eauto.
Qed.

(** ** The pairings enumerated by the reference solver *)

Lemma picks_perm {A : Type} (l : list A) x r : (x, r) ∈ picks l -> l ≡ₚ x :: r.
Proof.
  revert x r. induction l as [|y l IH]; intros x r H; simpl in H.
  - inversion H.
  - apply elem_of_cons in H as [H|H].
    + injection H as -> ->. reflexivity.
    + apply list_elem_of_fmap in H as ([x' r'] & Heq & H). simpl in Heq.
      injection Heq as -> ->. rewrite (IH _ _ H). apply perm_swap.
Qed.

Lemma picks_complete {A : Type} (l : list A) x : x ∈ l -> exists r, (x, r) ∈ picks l.
Proof.
  induction l as [|y l IH]; intros H.
  - inversion H.
  - apply elem_of_cons in H as [->|H].
    + exists l. simpl. left.
    + destruct (IH H) as [r Hr]. exists (y :: r). simpl. right.
      apply list_elem_of_fmap. exists (x, r). auto.
Qed.

Lemma arrangements_spec {A : Type} (k : nat) (l s : list A) :
  NoDup l ->
  s ∈ arrangements k l <->
  NoDup s /\ (forall x, x ∈ s -> x ∈ l) /\ length s = k.
Proof.
  revert l s. induction k as [|k IH]; intros l s Hl; simpl.
  - rewrite list_elem_of_singleton. split.
    + intros ->. split; [constructor|]. split; [|reflexivity].
      intros x Hx. inversion Hx.
    + intros (_ & _ & Hlen). now destruct s.
  - rewrite list_elem_of_bind. split.
    + intros ([x r] & Hs & Hxr). simpl in Hs.
      apply list_elem_of_fmap in Hs as (s' & -> & Hs').
      pose proof (picks_perm _ _ _ Hxr) as Hperm.
      rewrite Hperm in Hl. apply NoDup_cons in Hl as [Hx Hr].
      apply (IH r s' Hr) in Hs' as (Hnd & Hsub & Hlen).
      split; [|split].
      * apply NoDup_cons. split; [|exact Hnd]. intros Hin. apply Hx. auto.
      * intros y Hy. rewrite Hperm. apply elem_of_cons in Hy as [->|Hy];
          [left|right; auto].
      * simpl. now rewrite Hlen.
    + intros (Hnd & Hsub & Hlen). destruct s as [|x s']; [discriminate|].
      apply NoDup_cons in Hnd as [Hx Hnd]. injection Hlen as Hlen.
      destruct (picks_complete l x) as [r Hxr]; [apply Hsub; left|].
      pose proof (picks_perm _ _ _ Hxr) as Hperm.
      exists (x, r). split; [|exact Hxr]. simpl.
      apply list_elem_of_fmap. exists s'. split; [reflexivity|].
      rewrite Hperm in Hl. apply NoDup_cons in Hl as [_ Hr].
      apply (IH r s' Hr). split; [exact Hnd|]. split; [|exact Hlen].
      intros y Hy. assert (Hyl : y ∈ l) by (apply Hsub; now right).
      rewrite Hperm in Hyl. apply elem_of_cons in Hyl as [->|Hyl];
        [contradiction|exact Hyl].
Qed.

Lemma combinations_spec {A : Type} (k : nat) (l s : list A) :
  s ∈ combinations k l <-> s `sublist_of` l /\ length s = k.
Proof.
  revert k s. induction l as [|x l IH]; intros k s.
  - rewrite sublist_nil_r. destruct k as [|k]; simpl.
    + rewrite list_elem_of_singleton. split; [intros ->; auto|tauto].
    + split; [intros H; inversion H|]. intros [-> H]. discriminate.
  - destruct k as [|k]; simpl.
    + rewrite list_elem_of_singleton. split.
      * intros ->. split; [apply sublist_nil_l|reflexivity].
      * intros [_ H]. now destruct s.
    + rewrite elem_of_app, list_elem_of_fmap, sublist_cons_r, IH. split.
      * intros [(s' & -> & Hs')|[Hs Hlen]].
        -- apply IH in Hs' as [Hs' <-]. split; [|reflexivity]. right. eauto.
        -- auto.
      * intros [[Hs|(s' & -> & Hs')] Hlen].
        -- auto.
        -- left. exists s'. split; [reflexivity|]. apply IH.
           injection Hlen as Hlen. auto.
Qed.

Lemma sublist_seq_iff (s : list nat) (a n : nat) :
  s `sublist_of` seq a n <->
  StronglySorted lt s /\ Forall (fun i => (a <= i < a + n)%nat) s.
Proof.
  revert a s. induction n as [|n IH]; intros a s; simpl.
  - rewrite sublist_nil_r. split.
    + intros ->. split; constructor.
    + intros [_ H]. destruct s as [|x s]; [reflexivity|].
      apply Forall_cons in H as [H _]. lia.
  - rewrite sublist_cons_r, IH. split.
    + intros [[Hs Hb]|(s' & -> & [Hs Hb]%IH)].
      * split; [exact Hs|]. eapply Forall_impl; [exact Hb|]. simpl. lia.
      * split.
        -- apply StronglySorted_cons. split; [|exact Hs].
           eapply Forall_impl; [exact Hb|]. simpl. lia.
        -- constructor; [lia|]. eapply Forall_impl; [exact Hb|]. simpl. lia.
    + intros [Hs Hb]. destruct s as [|x s']; [left; split; constructor|].
      apply StronglySorted_cons in Hs as [Hlt Hs].
      apply Forall_cons in Hb as [Hx Hb].
      destruct (decide (x = a)) as [->|Hne].
      * right. exists s'. split; [reflexivity|]. apply IH. split; [exact Hs|].
        rewrite Forall_forall in Hlt, Hb. apply Forall_forall. intros y Hy.
        specialize (Hlt y Hy). specialize (Hb y Hy). lia.
      * left. split.
        -- apply StronglySorted_cons. auto.
        -- constructor; [lia|].
           rewrite Forall_forall in Hlt, Hb. apply Forall_forall. intros y Hy.
           specialize (Hlt y Hy). specialize (Hb y Hy). lia.
Qed.

Lemma candidates_spec (n m : nat) (rows cols : list nat) :
  (rows, cols) ∈ candidates n m <-> is_pairing n m rows cols.
Proof.
  unfold candidates, is_pairing. rewrite list_elem_of_bind. split.
  - intros (rows' & H & Hrows). apply list_elem_of_bind in H as (cols' & H & Hcols).
    apply list_elem_of_singleton in H. injection H as -> ->.
    apply combinations_spec in Hrows as [Hsub Hlen].
    apply sublist_seq_iff in Hsub as [Hsorted Hb].
    apply arrangements_spec in Hcols as (Hnd & Hin & Hlen'); [|apply NoDup_seq].
    repeat split; try assumption.
    + eapply Forall_impl; [exact Hb|]. simpl. lia.
    + apply Forall_forall. intros j Hj. apply Hin, elem_of_seq in Hj. lia.
  - intros (Hlen & Hlen' & Hsorted & Hb & Hnd & Hb').
    exists rows. split.
    + apply list_elem_of_bind. exists cols. split; [apply list_elem_of_singleton; reflexivity|].
      apply arrangements_spec; [apply NoDup_seq|]. split; [exact Hnd|].
      split; [|exact Hlen']. intros j Hj. rewrite Forall_forall in Hb'.
      apply elem_of_seq. specialize (Hb' j Hj). lia.
    + apply combinations_spec. split; [|exact Hlen].
      apply sublist_seq_iff. split; [exact Hsorted|].
      eapply Forall_impl; [exact Hb|]. simpl. lia.
Qed.

(** ** The order [<] on binary64 values *)

Ltac split_compare :=
  repeat match goal with
    | |- context [Z.compare ?a ?b] => destruct (Z.compare_spec a b)
    | |- context [Pos.compare_cont Eq ?a ?b] =>
        change (Pos.compare_cont Eq a b) with (Pos.compare a b);
        destruct (Pos.compare_spec a b)
    | H : context [Z.compare ?a ?b] |- _ => destruct (Z.compare_spec a b)
    | H : context [Pos.compare_cont Eq ?a ?b] |- _ =>
        change (Pos.compare_cont Eq a b) with (Pos.compare a b) in H;
        destruct (Pos.compare_spec a b)
    end.

Lemma SFltb_irrefl (x : spec_float) : SFltb x x = false.
Proof.
  unfold SFltb. destruct x as [s|s| |s m e]; simpl; try reflexivity.
  - destruct s; reflexivity.
  - destruct s; rewrite Z.compare_refl;
      change (Pos.compare_cont Eq m m) with (Pos.compare m m);
      rewrite Pos.compare_refl; reflexivity.
Qed.

Lemma SFltb_trans (x y z : spec_float) :
  SFltb x y = true -> SFltb y z = true -> SFltb x z = true.
Proof.
  unfold SFltb.
  destruct x as [sx|sx| |sx mx ex], y as [sy|sy| |sy my ey], z as [sz|sz| |sz mz ez];
    simpl; try discriminate; try (intros _ _; reflexivity);
    try (destruct sx; discriminate); try (destruct sy; discriminate);
    try (destruct sx, sy; discriminate); try (destruct sy, sz; discriminate);
    try (destruct sx, sy, sz; simpl; (discriminate || reflexivity)).
  all: destruct sx, sy, sz; simpl; try discriminate; try (intros _ _; reflexivity).
  all: intros Hxy Hyz; split_compare; simpl in *;
    try discriminate; try reflexivity; subst; try lia.
Qed.

Lemma ltb_irrefl (x : float) : (x <? x)%float = false.
Proof. rewrite FloatAxioms.ltb_spec. apply SFltb_irrefl. Qed.

Lemma ltb_trans (x y z : float) :
  (x <? y)%float = true -> (y <? z)%float = true -> (x <? z)%float = true.
Proof. rewrite !FloatAxioms.ltb_spec. apply SFltb_trans. Qed.

(** ** The reference solver returns a cheapest pairing *)

Lemma foldl_cheaper_in C c cs : foldl (cheaper C) c cs ∈ c :: cs.
Proof.
  revert c. induction cs as [|y cs IH]; intros c; simpl.
  - left.
  - specialize (IH (cheaper C c y)). unfold cheaper in *.
    destruct (total_cost C y <? total_cost C c)%float.
    + right. exact IH.
    + apply elem_of_cons in IH as [->|IH]; [left|right; right; exact IH].
Qed.

Lemma foldl_cheaper_le C c cs :
  foldl (cheaper C) c cs = c \/
  (total_cost C (foldl (cheaper C) c cs) <? total_cost C c)%float = true.
Proof.
  revert c. induction cs as [|y cs IH]; intros c; simpl.
  - now left.
  - specialize (IH (cheaper C c y)). unfold cheaper in *.
    destruct (total_cost C y <? total_cost C c)%float eqn:Hyc.
    + right. destruct IH as [->|IH]; [exact Hyc|]. eapply ltb_trans; eauto.
    + exact IH.
Qed.

Lemma foldl_cheaper_min C c cs x :
  x ∈ c :: cs ->
  (total_cost C x <? total_cost C (foldl (cheaper C) c cs))%float = false.
Proof.
  revert c x. induction cs as [|y cs IH]; intros c x Hx; simpl.
  - apply list_elem_of_singleton in Hx as ->. apply ltb_irrefl.
  - pose proof (foldl_cheaper_le C (cheaper C c y) cs) as Hle.
    assert (Hrest : forall z, z ∈ cheaper C c y :: cs ->
              (total_cost C z <? total_cost C (foldl (cheaper C) (cheaper C c y) cs))%float
              = false) by (intros z Hz; now apply IH).
    clear IH. remember (foldl (cheaper C) (cheaper C c y) cs) as f eqn:Hf. clear Hf.
    unfold cheaper in *.
    destruct (total_cost C y <? total_cost C c)%float eqn:Hyc.
    + (* the running best becomes [y] *)
      apply elem_of_cons in Hx as [->|Hx]; [|apply Hrest; exact Hx].
      destruct (total_cost C c <? total_cost C f)%float eqn:Hcf; [|reflexivity].
      rewrite <- (Hrest y) by left. symmetry. eapply ltb_trans; eauto.
    + (* the running best stays [c] *)
      apply elem_of_cons in Hx as [->|Hx]; [apply Hrest; left|].
      apply elem_of_cons in Hx as [->|Hx]; [|apply Hrest; right; exact Hx].
      destruct (total_cost C y <? total_cost C f)%float eqn:Hyf; [|reflexivity].
      destruct Hle as [Hle|Hle].
      * rewrite Hle in Hyf. congruence.
      * rewrite <- Hyc. symmetry. eapply ltb_trans; eauto.
Qed.

Lemma is_pairing_identity (n m : nat) :
  is_pairing n m (seq 0 (n `min` m)) (seq 0 (n `min` m)).
Proof.
  assert (Hs : StronglySorted lt (seq 0 (n `min` m)) /\
               Forall (fun i => (0 <= i < 0 + n `min` m)%nat) (seq 0 (n `min` m))).
  { apply sublist_seq_iff. reflexivity. }
  destruct Hs as [Hs Hb]. unfold is_pairing. rewrite length_seq.
  repeat split; try assumption.
  - eapply Forall_impl; [exact Hb|]. simpl. lia.
  - apply NoDup_seq.
  - eapply Forall_impl; [exact Hb|]. simpl. lia.
Qed.

Lemma is_pairing_no_rows (m m' : nat) rows cols :
  is_pairing 0 m rows cols -> is_pairing 0 m' rows cols.
Proof.
  unfold is_pairing. simpl. intros (Hr & Hc & Hrest).
  destruct rows; [|discriminate]. destruct cols; [|discriminate].
  repeat split; constructor.
Qed.

Lemma reference_solver_spec (C : list (list float)) :
  let n := length C in
  let m := match C with [] => O | row :: _ => length row end in
  let r := linear_sum_assignment_ref C in
  is_pairing n m r.1 r.2 /\
  forall rows cols, is_pairing n m rows cols ->
    (total_cost C (rows, cols) <? total_cost C r)%float = false.
Proof.
  intros n m r. subst r. unfold linear_sum_assignment_ref. fold n. fold m.
  pose proof (is_pairing_identity n m) as Hid. apply candidates_spec in Hid.
  destruct (candidates n m) as [|c cs] eqn:Hcand; [inversion Hid|].
  split.
  - pose proof (foldl_cheaper_in C c cs) as Hin. rewrite <- Hcand in Hin.
    destruct (foldl (cheaper C) c cs) as [rows cols]. now apply candidates_spec.
  - intros rows cols Hp. apply foldl_cheaper_min. rewrite <- Hcand.
    now apply candidates_spec.
Qed.

Lemma cost_matrix_dims (gts preds : list Point) :
  length (cost_matrix_of gts preds) = length gts /\
  (gts <> [] ->
   match cost_matrix_of gts preds with [] => O | row :: _ => length row end
   = length preds).
Proof.
  unfold cost_matrix_of. split; [apply length_map|].
  destruct gts as [|g gts]; [congruence|]. intros _. simpl. apply length_map.
Qed.

Lemma reference_solver_pairing (gts preds : list Point) :
  let r := linear_sum_assignment_ref (cost_matrix_of gts preds) in
  is_pairing (length gts) (length preds) r.1 r.2 /\
  forall rows cols, is_pairing (length gts) (length preds) rows cols ->
    (total_cost (cost_matrix_of gts preds) (rows, cols)
     <? total_cost (cost_matrix_of gts preds) r)%float = false.
Proof.
  pose proof (reference_solver_spec (cost_matrix_of gts preds)) as H.
  destruct (cost_matrix_dims gts preds) as [Hn Hm]. simpl in *.
  rewrite Hn in H. destruct gts as [|g gts].
  - destruct H as [Hp Hopt]. split.
    + eapply is_pairing_no_rows, Hp.
    + intros rows cols Hrc. apply Hopt. eapply is_pairing_no_rows, Hrc.
  - rewrite Hm in H by discriminate. exact H.
Qed.

Lemma reference_solver_contract : solver_contract linear_sum_assignment_ref.
Proof. intros gts preds. apply reference_solver_pairing. Qed.

(** ** The point matcher under the solver's contract *)

Lemma cell_cost_matrix (gts preds : list Point) (i j : nat) :
  cell (cost_matrix_of gts preds) i j =
  match gts !! i, preds !! j with
  | Some g, Some p => Ok (norm_diff g p)
  | _, _ => Raise IndexError
  end.
Proof.
  unfold cell, cost_matrix_of.
  change (map ?f ?l) with (f <$> l). rewrite list_lookup_fmap.
  destruct (gts !! i) as [g|]; simpl; [|reflexivity].
  change (map ?f ?l) with (f <$> l). rewrite list_lookup_fmap.
  destruct (preds !! j) as [p|]; reflexivity.
Qed.

Lemma for_zip_cells (gts preds : list Point) (rows cols : list nat) :
  Forall (fun i => (i < length gts)%nat) rows ->
  Forall (fun j => (j < length preds)%nat) cols ->
  for_zip (cell (cost_matrix_of gts preds)) rows cols =
  Ok (pair_distances gts preds rows cols) /\
  zip_with (cost_at (cost_matrix_of gts preds)) rows cols =
  pair_distances gts preds rows cols.
Proof.
  intros Hr. revert cols. induction Hr as [|i rows Hi Hr IH]; intros cols Hc.
  - split; reflexivity.
  - destruct Hc as [|j cols Hj Hc]; [split; reflexivity|].
    destruct (IH cols Hc) as [IH1 IH2].
    apply lookup_lt_is_Some in Hi as [g Hg]. apply lookup_lt_is_Some in Hj as [p Hp].
    assert (Hcell : cell (cost_matrix_of gts preds) i j = Ok (norm_diff g p))
      by (rewrite cell_cost_matrix, Hg, Hp; reflexivity).
    split.
    + cbn [for_zip]. rewrite Hcell, IH1. unfold pair_distances. simpl.
      rewrite Hg, Hp. reflexivity.
    + cbn [zip_with]. rewrite IH2. unfold cost_at. rewrite Hcell.
      unfold pair_distances. simpl. rewrite Hg, Hp. reflexivity.
Qed.

Lemma fancy_index_same_length C (rows cols : list nat) :
  length rows = length cols ->
  fancy_index C rows cols = for_zip (cell C) rows cols.
Proof.
  intros Hlen. unfold fancy_index.
  destruct rows as [|i [|i' rows]], cols as [|j [|j' cols]];
    try discriminate; try reflexivity.
  simpl in Hlen. assert (Hlen' : length rows = length cols) by lia.
  simpl. rewrite Hlen', Nat.eqb_refl. reflexivity.
Qed.

Lemma compute_msa_per_label_Ok lsa (gts preds : list Point) :
  solver_contract lsa ->
  exists rows cols,
    lsa (cost_matrix_of gts preds) = (rows, cols) /\
    is_pairing (length gts) (length preds) rows cols /\
    compute_msa_per_label lsa gts preds =
    Ok {| average_euclidean_distance :=
            if 0 <? len rows then np_mean (pair_distances gts preds rows cols)
            else 0%float;
          num_matched := len rows;
          false_positives := len preds - len rows;
          false_negatives := len gts - len rows |}.
Proof.
  intros Hc. specialize (Hc gts preds). unfold compute_msa_per_label.
  destruct (lsa (cost_matrix_of gts preds)) as [rows cols]. simpl in Hc.
  exists rows, cols. split; [reflexivity|]. split; [exact Hc|].
  destruct Hc as (Hlr & Hlc & _ & Hbr & _ & Hbc).
  rewrite fancy_index_same_length by congruence.
  destruct (for_zip_cells gts preds rows cols Hbr Hbc) as [-> _]. reflexivity.
Qed.


(** ** NumPy's pairwise sum *)











(** The fuel does not matter once it reaches the length of the array. *)
Lemma pairwise_sum_fuel (fuel : nat) (a : list float) :
  (length a <= fuel)%nat -> pairwise_sum fuel a = pairwise_sum (length a) a.
Proof.
  assert (H : forall f f' (a : list float),
             (length a <= f)%nat -> (length a <= f')%nat ->
             pairwise_sum f a = pairwise_sum f' a).
  { induction f as [|f IH]; intros f' b Hf Hf'.
    - destruct b; [|simpl in Hf; lia]. destruct f'; reflexivity.
    - destruct f' as [|f'].
      + destruct b; [reflexivity|simpl in Hf'; lia].
      + cbn [pairwise_sum]. destruct (Nat.ltb_spec (length b) 8); [reflexivity|].
        destruct (Nat.leb_spec (length b) 128); [reflexivity|].
        pose proof (Nat.div_mod_eq (length b) 2).
        pose proof (Nat.mod_upper_bound (length b) 2).
        pose proof (Nat.mod_upper_bound (length b / 2) 8).
        pose proof (Nat.div_mod_eq (length b / 2) 8).
        f_equal; apply IH; rewrite ?length_take, ?length_drop; lia. }
  intros Hlen. apply H; [exact Hlen|lia].
Qed.

(** Beyond 128 values the array is cut in two, whatever the fuel was. *)
Lemma pairwise_sum_halves (a : list float) :
  (128 < length a)%nat ->
  let n2 := (length a / 2 - (length a / 2) mod 8)%nat in
  pairwise_sum (length a) a =
  (pairwise_sum n2 (take n2 a) + pairwise_sum (length a - n2) (drop n2 a))%float.
Proof.
  intros Hlen n2. destruct (length a) as [|n] eqn:Hn; [lia|].
  cbn [pairwise_sum]. rewrite Hn.
  destruct (Nat.ltb_spec (S n) 8); [lia|]. destruct (Nat.leb_spec (S n) 128); [lia|].
  fold n2.
  pose proof (Nat.div_mod_eq (S n) 2).
  pose proof (Nat.mod_upper_bound (S n) 2).
  pose proof (Nat.mod_upper_bound (S n / 2) 8).
  pose proof (Nat.div_mod_eq (S n / 2) 8).
  rewrite (pairwise_sum_fuel n (take n2 a)), (pairwise_sum_fuel n (drop n2 a))
    by (rewrite ?length_take, ?length_drop; subst n2; lia).
  rewrite length_take, length_drop, Hn. f_equal. f_equal. subst n2. lia.
Qed.

(** From eight values on the sum is not the left-to-right one. *)
Lemma np_sum_is_pairwise :
  np_sum [9007199254740992; 1; 1; 1; 1; 1; 1; 1]%float = 9007199254740998%float /\
  add_all 0 [9007199254740992; 1; 1; 1; 1; 1; 1; 1]%float = 9007199254740992%float.
Proof. split; vm_compute; reflexivity. Qed.

(** ** The point matcher on the reference solver (C4, C3) *)





(** C3: with the reference solver, for two non-empty point lists, the pairs
    selected by the point matcher form a one-to-one pairing of size
    [min(n, m)], their distances are the ones averaged in the result, and no
    one-to-one pairing of that size has a strictly smaller total Euclidean
    distance. *)
Theorem C3_reference_matcher_is_optimal (gts preds : list Point) :
  gts <> [] -> preds <> [] ->
  exists r rows cols,
    linear_sum_assignment_ref (cost_matrix_of gts preds) = (rows, cols) /\
    compute_msa_per_label linear_sum_assignment_ref gts preds = Ok r /\
    is_pairing (length gts) (length preds) rows cols /\
    average_euclidean_distance r = np_mean (pair_distances gts preds rows cols) /\
    forall rows' cols',
      is_pairing (length gts) (length preds) rows' cols' ->
      (np_sum (pair_distances gts preds rows' cols')
       <? np_sum (pair_distances gts preds rows cols))%float = false.
Proof.
  intros Hg Hp.
  destruct (compute_msa_per_label_Ok _ gts preds reference_solver_contract)
    as (rows & cols & Hlsa & Hpair & Hr).
  eexists _, rows, cols. split; [exact Hlsa|]. split; [exact Hr|].
  split; [exact Hpair|]. simpl. split.
  - destruct Hpair as (Hlr & _). apply len_pos_iff in Hg, Hp.
    destruct (Z.ltb_spec 0 (len rows)); [reflexivity|]. unfold len in *. lia.
  - intros rows' cols' Hpair'.
    destruct (reference_solver_pairing gts preds) as [_ Hopt].
    specialize (Hopt rows' cols' Hpair'). rewrite Hlsa in Hopt.
    unfold total_cost in Hopt. simpl in Hopt.
    destruct Hpair as (_ & _ & _ & Hbr & _ & Hbc).
    destruct Hpair' as (_ & _ & _ & Hbr' & _ & Hbc').
    destruct (for_zip_cells gts preds rows cols Hbr Hbc) as [_ <-].
    destruct (for_zip_cells gts preds rows' cols' Hbr' Hbc') as [_ <-].
    exact Hopt.
Qed.

Lemma C3_witness :
  exists r,
    linear_sum_assignment_ref
      (cost_matrix_of [(0, 0); (2, 0)]%float [(1, 0); (-3, 0)]%float)
      = ([0; 1]%nat, [1; 0]%nat) /\
    compute_msa_per_label linear_sum_assignment_ref
      [(0, 0); (2, 0)]%float [(1, 0); (-3, 0)]%float = Ok r /\
    average_euclidean_distance r = NpFloat64 2.
Proof.
  destruct (C3_reference_matcher_is_optimal
              [(0, 0); (2, 0)]%float [(1, 0); (-3, 0)]%float)
    as (r & rows & cols & Hlsa & Hr & _ & Havg & _).
  - discriminate.
  - discriminate.
  - exists r. split; [vm_compute; reflexivity|]. split; [exact Hr|].
    rewrite Havg. vm_compute in Hlsa. injection Hlsa as <- <-.
    vm_compute. reflexivity.
Defined.

(** ** [compute_msa] returns (C10) *)

Lemma for_each_total {S A : Type} (body : S -> A -> result S) (xs : list A) (st : S) :
  (forall s x, x ∈ xs -> exists s', body s x = Ok s') ->
  exists st', for_each body xs st = Ok st'.
Proof.
  revert st. induction xs as [|x xs IH]; intros st Hb; simpl; [eauto|].
  destruct (Hb st x) as [s' ->]; [left|]. simpl.
  apply IH. intros s y Hy. apply Hb. now right.
Qed.

Lemma matched_step_total lsa gt pred st l :
  solver_contract lsa -> l ∈ dom gt -> l ∈ dom pred ->
  exists st', matched_step lsa gt pred st l = Ok st'.
Proof.
  intros Hc [gp Hg]%elem_of_dom [pp Hp]%elem_of_dom.
  unfold matched_step, getitem. rewrite Hg, Hp. simpl.
  destruct (select_branch gp pp); simpl; eauto.
  destruct (compute_msa_per_label_Ok lsa gp pp Hc) as (rows & cols & _ & _ & ->).
  simpl. eauto.
Qed.

Lemma compute_msa_sample_total lsa gt pred :
  solver_contract lsa -> exists m, compute_msa_sample lsa gt pred = Ok m.
Proof.
  intros Hc. rewrite compute_msa_sample_spec.
  destruct (for_each_total (matched_step lsa gt pred)
              (elements (dom gt ∩ dom pred)) (initial_state gt pred)) as [st1 H1].
  - intros s l Hl. apply elem_of_elements, elem_of_intersection in Hl as [Hg Hp].
    now apply matched_step_total.
  - unfold matched_loop. rewrite H1. simpl. eauto.
Qed.

(** C10: for lists of unequal length [compute_msa] returns, without raising,
    the metrics of exactly [min(len(gt_list), len(pred_list))] samples, and
    they are the metrics of the two lists cut to that length: the trailing
    samples of the longer list are ignored. *)
Theorem C10_zip_truncates lsa (gt_list pred_list : list (gmap string (list Point))) :
  solver_contract lsa ->
  exists all_metrics,
    compute_msa lsa gt_list pred_list = Ok all_metrics /\
    len all_metrics = Z.min (len gt_list) (len pred_list) /\
    compute_msa lsa
      (take (length gt_list `min` length pred_list) gt_list)
      (take (length gt_list `min` length pred_list) pred_list) = Ok all_metrics.
Proof.
  intros Hc.
  destruct (for_zip_total (compute_msa_sample lsa) gt_list pred_list) as [ms Hms].
  - intros gt pred _ _. now apply compute_msa_sample_total.
  - exists ms. unfold compute_msa. split; [exact Hms|]. split.
    + apply for_zip_length in Hms. unfold len. rewrite Hms. lia.
    + rewrite <- for_zip_take. exact Hms.
Qed.

Lemma C10_witness :
  compute_msa linear_sum_assignment_ref [gt_sample] [pred_sample; pred_one_sided]
    = Ok [metrics_sample] /\
  len [metrics_sample] = Z.min (len [gt_sample]) (len [pred_sample; pred_one_sided]).
Proof.
  destruct (C10_zip_truncates linear_sum_assignment_ref
              [gt_sample] [pred_sample; pred_one_sided] reference_solver_contract)
    as (ms & Hms & Hlen & _).
  assert (ms = [metrics_sample]) as ->.
  { vm_compute in Hms. injection Hms as <-. reflexivity. }
  split; [exact Hms|exact Hlen].
Defined.

(** * Further properties of the code *)

(** ** The entries of a sample *)

Lemma compute_msa_sample_at lsa gt_list pred_list all_metrics i gt pred m :
  compute_msa lsa gt_list pred_list = Ok all_metrics ->
  gt_list !! i = Some gt -> pred_list !! i = Some pred ->
  all_metrics !! i = Some m ->
  compute_msa_sample lsa gt pred = Ok m.
Proof.
  intros H Hgt Hpred Hm.
  destruct (compute_msa_lookup _ _ _ _ _ _ H Hm) as (gt' & pred' & Hgt' & Hpred' & Hs).
  congruence.
Qed.

Lemma sample_entry_labels lsa gt pred m :
  compute_msa_sample lsa gt pred = Ok m ->
  map label (point_metrics_per_label m) ≡ₚ elements (dom gt ∪ dom pred).
Proof.
  intros H. apply compute_msa_sample_Ok in H as (st1 & H1 & ->).
  pose proof (matched_steps_fn _ _ _ _ _ _ H1) as Hfn.
  pose proof (matched_steps_fp _ _ _ _ _ _ H1) as Hfp.
  pose proof (matched_steps_lookups _ _ _ _ _ _ H1) as Hlk.
  destruct (matched_steps_pml _ _ _ _ _ _ H1) as (new & Hpml & _ & Hsub & Hlab).
  simpl in Hpml, Hfn, Hfp. unfold finish. simpl. rewrite Hpml.
  rewrite !map_app, !map_map. simpl. rewrite !map_id.
  assert (Hin : forall l, l ∈ elements (dom gt ∩ dom pred) <->
                  is_Some (gt !! l) /\ is_Some (pred !! l)).
  { intros l. rewrite elem_of_elements, elem_of_intersection, !elem_of_dom. tauto. }
  assert (Hfn' : forall l, l ∈ elements (fn_set st1) <->
            (is_Some (gt !! l) /\ pred !! l = None) \/
            (gt !! l = Some [] /\ is_Some (pred !! l))).
  { intros l. rewrite elem_of_elements, Hfn, elem_of_difference, Hin,
      elem_of_dom, not_elem_of_dom. split.
    - intros [?|[[_ ?] Hg]]; [tauto|]. right. tauto.
    - intros [?|[Hg ?]]; [tauto|]. right. rewrite Hg. eauto. }
  assert (Hfp' : forall l, l ∈ elements (fp_set st1) <->
            (is_Some (pred !! l) /\ gt !! l = None) \/
            (pred !! l = Some [] /\ exists gp, gt !! l = Some gp /\ gp <> [])).
  { intros l. rewrite elem_of_elements, Hfp, elem_of_difference, Hin,
      elem_of_dom, not_elem_of_dom. split.
    - intros [?|[_ ?]]; tauto.
    - intros [?|[Hp (gp & Hg & Hne)]]; [tauto|]. right.
      rewrite Hp, Hg. eauto 10. }
  apply NoDup_Permutation.
  - apply NoDup_app. split; [|split].
    + apply (sublist_NoDup _ _ (NoDup_elements (dom gt ∩ dom pred))), Hsub.
    + intros l Hl. apply Hlab in Hl as (_ & gp & pp & Hg & Hp & Hgne & Hpne).
      rewrite elem_of_app, Hfn', Hfp', Hg, Hp.
      intros [[[_ ?]|[? _]]|[[_ ?]|[? _]]]; congruence.
    + apply NoDup_app. split; [apply NoDup_elements|]. split; [|apply NoDup_elements].
      intros l. rewrite Hfn', Hfp'.
      intros [[[gp Hg] Hp]|[Hg [pp Hp]]] [[[pp' Hp'] Hg']|[Hp' (gp' & Hg' & Hne)]];
        congruence.
  - apply NoDup_elements.
  - intros l. rewrite !elem_of_app, Hfn', Hfp', Hlab, Hin, elem_of_elements,
      elem_of_union, !elem_of_dom.
    destruct (gt !! l) as [gp|] eqn:Hg, (pred !! l) as [pp|] eqn:Hp.
    + split; [eauto|]. intros _.
      destruct gp as [|g gp]; [right; left; right; eauto|].
      destruct pp as [|p pp]; [right; right; right; eauto 10|].
      left. split; [eauto|]. exists (g :: gp), (p :: pp). auto.
    + split; [eauto|]. intros _. right. left. left. eauto.
    + split; [eauto|]. intros _. right. right. left. eauto.
    + split.
      * intros [(_ & gp & pp & ? & _)|[[[[? ?] _]|[? _]]|[[[? ?] _]|[? _]]]];
          congruence.
      * intros [[? ?]|[? ?]]; congruence.
Qed.

(** X1: for every sample, the entries of ["point_metrics_per_label"] carry
    pairwise distinct labels, a label has an entry exactly when it is a key
    of the ground truth or of the prediction, and the number of entries is
    the number of distinct labels of the two mappings together. *)
Theorem X1_one_entry_per_label lsa gt_list pred_list all_metrics i gt pred m :
  compute_msa lsa gt_list pred_list = Ok all_metrics ->
  gt_list !! i = Some gt -> pred_list !! i = Some pred ->
  all_metrics !! i = Some m ->
  NoDup (map label (point_metrics_per_label m)) /\
  (forall l, l ∈ map label (point_metrics_per_label m) <-> l ∈ dom gt \/ l ∈ dom pred) /\
  len (point_metrics_per_label m) = len_set (dom gt ∪ dom pred).
Proof.
  intros H Hgt Hpred Hm.
  pose proof (compute_msa_sample_at _ _ _ _ _ _ _ _ H Hgt Hpred Hm) as Hs.
  apply sample_entry_labels in Hs. split; [|split].
  - rewrite Hs. apply NoDup_elements.
  - intros l. rewrite Hs, elem_of_elements, elem_of_union. reflexivity.
  - unfold len, len_set. f_equal.
    rewrite <- (length_map label), Hs. reflexivity.
Qed.

Lemma X1_witness :
  NoDup (map label (point_metrics_per_label metrics_sample)) /\
  len (point_metrics_per_label metrics_sample)
    = len_set (dom gt_sample ∪ dom pred_sample).
Proof.
  destruct (X1_one_entry_per_label linear_sum_assignment_ref
              [gt_sample] [pred_sample] [metrics_sample] 0%nat
              gt_sample pred_sample metrics_sample) as (Hnd & _ & Hlen).
  - vm_compute. reflexivity.
  - reflexivity.
  - reflexivity.
  - reflexivity.
  - split; assumption.
Defined.

(** X2: for every sample and every entry whose label is not present in
    both mappings with exactly one empty point list,
    [num_matched + false_positives] is the number of predicted points of
    the label and [num_matched + false_negatives] the number of its
    ground-truth points (zero for a label the mapping does not have). *)
Theorem X2_conservation_outside_one_sided
    lsa gt_list pred_list all_metrics i gt pred m e :
  compute_msa lsa gt_list pred_list = Ok all_metrics ->
  gt_list !! i = Some gt -> pred_list !! i = Some pred ->
  all_metrics !! i = Some m ->
  e ∈ point_metrics_per_label m ->
  ~ one_sided gt pred (label e) ->
  num_matched (stats e) + false_positives (stats e) = len (points_of pred (label e)) /\
  num_matched (stats e) + false_negatives (stats e) = len (points_of gt (label e)).
Proof.
  intros H Hgt Hpred Hm He Hns.
  pose proof (compute_msa_sample_at _ _ _ _ _ _ _ _ H Hgt Hpred Hm) as Hs.
  eapply conservation_except_one_sided; eauto.
Qed.

Lemma not_one_sided_plain (l : string) : ~ one_sided gt_plain pred_plain l.
Proof.
  intros (gp & pp & Hg & Hp & Hside). unfold gt_plain, pred_plain in *.
  apply lookup_insert_Some in Hg as [[<- <-]|[Hne Hg]].
  - rewrite lookup_insert_eq in Hp. injection Hp as <-.
    destruct Hside as [[? _]|[_ ?]]; discriminate.
  - apply lookup_singleton_Some in Hg as [<- <-].
    rewrite lookup_insert_ne in Hp by discriminate.
    apply lookup_singleton_Some in Hp as [? _]. discriminate.
Qed.

Lemma X2_witness :
  num_matched (stats (fp_entry "D" [(1, 1)%float]))
  + false_positives (stats (fp_entry "D" [(1, 1)%float]))
  = len (points_of pred_plain "D").
Proof.
  apply (X2_conservation_outside_one_sided linear_sum_assignment_ref
           [gt_plain] [pred_plain] [metrics_plain] 0%nat gt_plain pred_plain
           metrics_plain (fp_entry "D" [(1, 1)%float])).
  - vm_compute. reflexivity.
  - reflexivity.
  - reflexivity.
  - reflexivity.
  - unfold metrics_plain. simpl. right. right. left.
  - apply not_one_sided_plain.
Defined.

Lemma same_label_same_entry (es : list point_metric) e e' :
  NoDup (map label es) -> e ∈ es -> e' ∈ es -> label e = label e' -> e = e'.
Proof.
  induction es as [|a es IH]; intros Hnd He He' Hl; [inversion He|].
  simpl in Hnd. apply NoDup_cons in Hnd as [Ha Hnd].
  apply elem_of_cons in He as [->|He]; apply elem_of_cons in He' as [->|He'].
  - reflexivity.
  - exfalso. apply Ha. rewrite Hl. apply list_elem_of_fmap. eauto.
  - exfalso. apply Ha. rewrite <- Hl. apply list_elem_of_fmap. eauto.
  - auto.
Qed.

(** X3: for a label present in both mappings whose predicted list is empty
    and whose ground-truth list is not, every entry of the sample under
    that label has [num_matched = 0], [false_positives = 0],
    [false_negatives = 0] and [average_euclidean_distance = 0.0], with
    ["precision"] and ["recall"] equal to [0.0]: the ground-truth points of
    the label are not counted as false negatives. *)
Theorem X3_empty_prediction_entry
    lsa gt_list pred_list all_metrics i gt pred m l gp :
  compute_msa lsa gt_list pred_list = Ok all_metrics ->
  gt_list !! i = Some gt -> pred_list !! i = Some pred ->
  all_metrics !! i = Some m ->
  gt !! l = Some gp -> gp <> [] -> pred !! l = Some [] ->
  (exists e, e ∈ point_metrics_per_label m /\ label e = l) /\
  forall e, e ∈ point_metrics_per_label m -> label e = l ->
    stats e = zero_stats /\ precision e = Some 0%float /\ recall e = Some 0%float.
Proof.
  intros H Hgt Hpred Hm Hg Hne Hp.
  pose proof (compute_msa_sample_at _ _ _ _ _ _ _ _ H Hgt Hpred Hm) as Hs.
  pose proof (sample_entry_labels _ _ _ _ Hs) as Hperm.
  assert (Hnd : NoDup (map label (point_metrics_per_label m)))
    by (rewrite Hperm; apply NoDup_elements).
  apply compute_msa_sample_Ok in Hs as (st1 & H1 & ->).
  destruct (matched_loop_in_matched _ _ _ _ _ _ _ H1 Hg Hp) as (Hin & _ & _).
  assert (He0 : fp_entry l (points_of pred l)
                ∈ point_metrics_per_label (finish gt pred st1)).
  { apply finish_entries. right. right. exists l. split; [|reflexivity].
    apply (matched_steps_fp _ _ _ _ _ _ H1). right. eauto. }
  split; [eauto|]. intros e He Hl.
  assert (e = fp_entry l (points_of pred l)) as ->
    by (eapply same_label_same_entry; eauto).
  unfold fp_entry, points_of. rewrite Hp. auto.
Qed.

Lemma X3_witness :
  exists m e,
    compute_msa linear_sum_assignment_ref [pred_one_sided] [gt_one_sided] = Ok [m] /\
    e ∈ point_metrics_per_label m /\ label e = "A" /\ stats e = zero_stats.
Proof.
  eexists. 
  match goal with
  | |- exists e, ?c = Ok [?m] /\ _ =>
      assert (Hc : c = Ok [m]) by (vm_compute; reflexivity)
  end.
  match type of Hc with
  | _ = Ok [?m] =>
      destruct (X3_empty_prediction_entry linear_sum_assignment_ref
                  [pred_one_sided] [gt_one_sided] [m] 0%nat
                  pred_one_sided gt_one_sided m "A" [(0, 0)%float])
        as [(e & He & Hl) Hall]
  end.
  - exact Hc.
  - reflexivity.
  - reflexivity.
  - reflexivity.
  - reflexivity.
  - discriminate.
  - reflexivity.
  - exists e. split; [exact Hc|]. split; [exact He|]. split; [exact Hl|].
    apply Hall; assumption.
Defined.

(** ** Point totals of a sample *)

Lemma sumZ_app {A : Type} (f : A -> Z) (l k : list A) :
  sumZ f (l ++ k) = sumZ f l + sumZ f k.
Proof. induction l as [|a l IH]; simpl; [reflexivity|]. rewrite IH. lia. Qed.

Lemma sumZ_map {A B : Type} (f : B -> Z) (g : A -> B) (l : list A) :
  sumZ f (map g l) = sumZ (fun a => f (g a)) l.
Proof. induction l as [|a l IH]; simpl; [reflexivity|]. now rewrite IH. Qed.

Lemma sumZ_ext_in {A : Type} (f g : A -> Z) (l : list A) :
  (forall a, a ∈ l -> f a = g a) -> sumZ f l = sumZ g l.
Proof.
  induction l as [|a l IH]; intros H; simpl; [reflexivity|].
  rewrite H by left. rewrite IH; [reflexivity|]. intros b Hb. apply H. now right.
Qed.

Lemma sumZ_perm {A : Type} (f : A -> Z) (l k : list A) :
  l ≡ₚ k -> sumZ f l = sumZ f k.
Proof. induction 1; simpl; lia. Qed.

Lemma elements_union_split (X Y : gset string) :
  elements (X ∪ Y) ≡ₚ elements Y ++ elements (X ∖ Y).
Proof.
  apply NoDup_Permutation.
  - apply NoDup_elements.
  - apply NoDup_app. split; [apply NoDup_elements|]. split; [|apply NoDup_elements].
    intros l. rewrite !elem_of_elements, elem_of_difference. tauto.
  - intros l. rewrite elem_of_app, !elem_of_elements, elem_of_union, elem_of_difference.
    destruct (decide (l ∈ Y)); tauto.
Qed.

Lemma sum_over_both_doms (labels other : gmap string (list Point)) :
  sumZ (fun l => len (points_of labels l)) (elements (dom other ∪ dom labels))
  = total_points labels.
Proof.
  rewrite (sumZ_perm _ _ _ (elements_union_split (dom other) (dom labels))), sumZ_app.
  unfold total_points.
  rewrite (sumZ_ext_in _ (fun _ => 0) (elements (dom other ∖ dom labels))).
  - assert (H0 : forall k : list string, sumZ (fun _ => 0) k = 0)
      by (induction k as [|? ? IH]; simpl; [reflexivity|now rewrite IH]).
    rewrite H0. lia.
  - intros l Hl. apply elem_of_elements, elem_of_difference in Hl as [_ Hl].
    apply not_elem_of_dom in Hl. unfold points_of. rewrite Hl. reflexivity.
Qed.

(** X4: in a sample where no label is present in both mappings with exactly
    one empty point list, the entries account for every point once: the sum
    of [num_matched + false_positives] over the entries is the number of
    predicted points of the sample, and the sum of
    [num_matched + false_negatives] is the number of its ground-truth
    points. *)
Theorem X4_sample_point_totals lsa gt_list pred_list all_metrics i gt pred m :
  compute_msa lsa gt_list pred_list = Ok all_metrics ->
  gt_list !! i = Some gt -> pred_list !! i = Some pred ->
  all_metrics !! i = Some m ->
  (forall l, ~ one_sided gt pred l) ->
  sumZ (fun e => num_matched (stats e) + false_positives (stats e))
       (point_metrics_per_label m) = total_points pred /\
  sumZ (fun e => num_matched (stats e) + false_negatives (stats e))
       (point_metrics_per_label m) = total_points gt.
Proof.
  intros H Hgt Hpred Hm Hns.
  pose proof (compute_msa_sample_at _ _ _ _ _ _ _ _ H Hgt Hpred Hm) as Hs.
  pose proof (sample_entry_labels _ _ _ _ Hs) as Hperm.
  assert (Hcons : forall e, e ∈ point_metrics_per_label m ->
            num_matched (stats e) + false_positives (stats e)
              = len (points_of pred (label e)) /\
            num_matched (stats e) + false_negatives (stats e)
              = len (points_of gt (label e))).
  { intros e He. eapply conservation_except_one_sided; eauto. }
  split.
  - rewrite (sumZ_ext_in _ (fun e => len (points_of pred (label e)))
               (point_metrics_per_label m)) by (intros e He; apply Hcons, He).
    rewrite <- (sumZ_map (fun l => len (points_of pred l)) label).
    rewrite (sumZ_perm _ _ _ Hperm). apply sum_over_both_doms.
  - rewrite (sumZ_ext_in _ (fun e => len (points_of gt (label e)))
               (point_metrics_per_label m)) by (intros e He; apply Hcons, He).
    rewrite <- (sumZ_map (fun l => len (points_of gt l)) label).
    rewrite (sumZ_perm _ _ _ Hperm).
    rewrite (comm_L (∪) (dom gt) (dom pred)). apply sum_over_both_doms.
Qed.

Lemma X4_witness :
  sumZ (fun e => num_matched (stats e) + false_positives (stats e))
       (point_metrics_per_label metrics_plain) = total_points pred_plain /\
  sumZ (fun e => num_matched (stats e) + false_negatives (stats e))
       (point_metrics_per_label metrics_plain) = total_points gt_plain.
Proof.
  apply (X4_sample_point_totals linear_sum_assignment_ref
           [gt_plain] [pred_plain] [metrics_plain] 0%nat).
  - vm_compute. reflexivity.
  - reflexivity.
  - reflexivity.
  - reflexivity.
  - apply not_one_sided_plain.
Defined.

(** X5: in every sample, an entry has the keys ["precision"] and
    ["recall"] exactly when it is not a result of the point matcher. For a
    label with points on both sides the entry is the point matcher's result
    and has neither key; for every other label the entry has both keys at
    [0.0], [num_matched = 0] and [average_euclidean_distance = 0.0]. *)
Theorem X5_entry_keys lsa gt_list pred_list all_metrics i gt pred m e :
  compute_msa lsa gt_list pred_list = Ok all_metrics ->
  gt_list !! i = Some gt -> pred_list !! i = Some pred ->
  all_metrics !! i = Some m ->
  e ∈ point_metrics_per_label m ->
  (points_of gt (label e) <> [] /\ points_of pred (label e) <> [] ->
     precision e = None /\ recall e = None /\
     compute_msa_per_label lsa (points_of gt (label e)) (points_of pred (label e))
       = Ok (stats e)) /\
  (points_of gt (label e) = [] \/ points_of pred (label e) = [] ->
     precision e = Some 0%float /\ recall e = Some 0%float /\
     num_matched (stats e) = 0 /\ average_euclidean_distance (stats e) = 0%float).
Proof.
  intros H Hgt Hpred Hm He.
  pose proof (compute_msa_sample_at _ _ _ _ _ _ _ _ H Hgt Hpred Hm) as Hs.
  apply compute_msa_sample_Ok in Hs as (st1 & H1 & ->).
  apply finish_entries in He as [He|[(l & Hl & ->)|(l & Hl & ->)]].
  - apply (matched_loop_entry _ _ _ _ _ H1) in He
      as (gp & pp & Hg & Hp & Hgne & Hpne & Hr & Hprec & Hrec).
    unfold points_of. rewrite Hg, Hp. simpl. split; [auto|].
    intros [?|?]; contradiction.
  - simpl. split; [|auto].
    intros [Hgne Hpne]. exfalso.
    apply (matched_steps_fn _ _ _ _ _ _ H1) in Hl as [Hl|[_ Hl]].
    + simpl in Hl. apply elem_of_difference in Hl as [_ Hl].
      apply not_elem_of_dom in Hl. apply Hpne. unfold points_of. now rewrite Hl.
    + apply Hgne. unfold points_of. now rewrite Hl.
  - simpl. split; [|auto].
    intros [Hgne Hpne]. exfalso.
    apply (matched_steps_fp _ _ _ _ _ _ H1) in Hl as [Hl|(_ & Hl & _)].
    + simpl in Hl. apply elem_of_difference in Hl as [_ Hl].
      apply not_elem_of_dom in Hl. apply Hgne. unfold points_of. now rewrite Hl.
    + apply Hpne. unfold points_of. now rewrite Hl.
Qed.

Lemma X5_witness :
  precision (fn_entry "C" [(1, 1)%float]) = Some 0%float /\
  recall (fn_entry "C" [(1, 1)%float]) = Some 0%float.
Proof.
  destruct (X5_entry_keys linear_sum_assignment_ref
              [gt_plain] [pred_plain] [metrics_plain] 0%nat gt_plain pred_plain
              metrics_plain (fn_entry "C" [(1, 1)%float])) as [_ Hkeys].
  - vm_compute. reflexivity.
  - reflexivity.
  - reflexivity.
  - reflexivity.
  - unfold metrics_plain. simpl. right. left.
  - destruct Hkeys as (Hp & Hr & _); [right; reflexivity|]. split; assumption.
Defined.

(** X6: with a solver that honours its contract, every entry of every
    sample has [0 <= num_matched <= min(n, m)], [false_positives >= 0] and
    [false_negatives >= 0], where [n] and [m] are the numbers of
    ground-truth and predicted points of its label. *)
Theorem X6_entry_bounds lsa gt_list pred_list all_metrics i gt pred m e :
  solver_contract lsa ->
  compute_msa lsa gt_list pred_list = Ok all_metrics ->
  gt_list !! i = Some gt -> pred_list !! i = Some pred ->
  all_metrics !! i = Some m ->
  e ∈ point_metrics_per_label m ->
  0 <= num_matched (stats e) <=
    Z.min (len (points_of gt (label e))) (len (points_of pred (label e))) /\
  0 <= false_positives (stats e) /\ 0 <= false_negatives (stats e).
Proof.
  intros Hc H Hgt Hpred Hm He.
  pose proof (compute_msa_sample_at _ _ _ _ _ _ _ _ H Hgt Hpred Hm) as Hs.
  apply compute_msa_sample_Ok in Hs as (st1 & H1 & ->).
  apply finish_entries in He as [He|[(l & Hl & ->)|(l & Hl & ->)]].
  - apply (matched_loop_entry _ _ _ _ _ H1) in He
      as (gp & pp & Hg & Hp & _ & _ & Hr & _).
    unfold points_of. rewrite Hg, Hp. simpl.
    destruct (compute_msa_per_label_Ok lsa gp pp Hc)
      as (rows & cols & _ & (Hlr & _) & Hr').
    rewrite Hr' in Hr. injection Hr as <-. simpl. unfold len. rewrite Hlr. lia.
  - simpl. unfold len. lia.
  - simpl. unfold len. lia.
Qed.

Lemma X6_witness :
  0 <= num_matched (stats (fn_entry "C" [(1, 1)%float])) /\
  0 <= false_negatives (stats (fn_entry "C" [(1, 1)%float])).
Proof.
  destruct (X6_entry_bounds linear_sum_assignment_ref
              [gt_plain] [pred_plain] [metrics_plain] 0%nat gt_plain pred_plain
              metrics_plain (fn_entry "C" [(1, 1)%float])) as ([Hn _] & _ & Hfn).
  - apply reference_solver_contract.
  - vm_compute. reflexivity.
  - reflexivity.
  - reflexivity.
  - reflexivity.
  - unfold metrics_plain. simpl. right. left.
  - split; assumption.
Defined.

(** ** The point matcher on an empty side *)

(** X7: called with an empty list on either side and a solver that honours
    its contract, [compute_msa_per_label] returns without raising:
    [num_matched = 0], [average_euclidean_distance = 0.0] (the mean of no
    value is not taken), [false_positives = len(preds)] and
    [false_negatives = len(gts)]. *)
Theorem X7_point_matcher_empty_side lsa (gts preds : list Point) :
  solver_contract lsa -> gts = [] \/ preds = [] ->
  compute_msa_per_label lsa gts preds =
  Ok {| average_euclidean_distance := 0%float;
        num_matched := 0;
        false_positives := len preds;
        false_negatives := len gts |}.
Proof.
  intros Hc Hempty.
  destruct (compute_msa_per_label_Ok lsa gts preds Hc)
    as (rows & cols & _ & (Hlr & _) & ->).
  assert (Hmin : (length gts `min` length preds)%nat = 0%nat)
    by (destruct Hempty as [-> | ->]; simpl; lia).
  rewrite Hmin in Hlr. destruct rows; [|discriminate].
  unfold len at 1 2 3. simpl length. simpl.
  rewrite !Z.sub_0_r. reflexivity.
Qed.

Lemma X7_witness :
  compute_msa_per_label linear_sum_assignment_ref [] [(1, 1); (2, 2)]%float =
  Ok {| average_euclidean_distance := 0%float; num_matched := 0;
        false_positives := 2; false_negatives := 0 |}.
Proof.
  apply (X7_point_matcher_empty_side linear_sum_assignment_ref [] [(1, 1); (2, 2)]%float).
  - apply reference_solver_contract.
  - left. reflexivity.
Defined.

(** ** Exchanging ground truth and prediction *)

(** X8: evaluating the predictions against the ground truth the other way
    round leaves [num_matched_labels] of every sample unchanged and
    exchanges [false_positive_labels] and [false_negative_labels]. *)
Theorem X8_exchange_label_counts lsa gt_list pred_list ms ms' i m m' :
  compute_msa lsa gt_list pred_list = Ok ms ->
  compute_msa lsa pred_list gt_list = Ok ms' ->
  ms !! i = Some m -> ms' !! i = Some m' ->
  num_matched_labels m' = num_matched_labels m /\
  false_positive_labels m' = false_negative_labels m /\
  false_negative_labels m' = false_positive_labels m.
Proof.
  intros H H' Hm Hm'.
  destruct (compute_msa_lookup _ _ _ _ _ _ H Hm) as (gt & pred & Hgt & Hpred & Hs).
  destruct (compute_msa_lookup _ _ _ _ _ _ H' Hm') as (a & b & Ha & Hb & Hs').
  assert (a = pred) as -> by congruence. assert (b = gt) as -> by congruence.
  apply compute_msa_sample_counts in Hs as (-> & -> & ->).
  apply compute_msa_sample_counts in Hs' as (-> & -> & ->).
  rewrite (comm_L (∩) (dom pred) (dom gt)). auto.
Qed.

Lemma X8_witness :
  exists m',
    compute_msa linear_sum_assignment_ref [pred_plain] [gt_plain] = Ok [m'] /\
    false_positive_labels m' = false_negative_labels metrics_plain /\
    false_negative_labels m' = false_positive_labels metrics_plain.
Proof.
  eexists.
  match goal with
  | |- ?c = Ok [?m] /\ _ => assert (Hc : c = Ok [m]) by (vm_compute; reflexivity)
  end.
  split; [exact Hc|].
  match type of Hc with
  | _ = Ok [?m'] =>
      destruct (X8_exchange_label_counts linear_sum_assignment_ref
                  [gt_plain] [pred_plain] [metrics_plain] [m'] 0%nat
                  metrics_plain m') as (_ & Hfp & Hfn)
  end.
  - vm_compute. reflexivity.
  - exact Hc.
  - reflexivity.
  - reflexivity.
  - split; assumption.
Defined.

(** ** The order of the samples in [summarize_msa] *)

Lemma foldl_add_point_metric_counts (es : list point_metric) tp :
  tp_matched (foldl add_point_metric tp es)
    = tp_matched tp + sumZ (fun e => num_matched (stats e)) es /\
  tp_fp (foldl add_point_metric tp es)
    = tp_fp tp + sumZ (fun e => false_positives (stats e)) es /\
  tp_fn (foldl add_point_metric tp es)
    = tp_fn tp + sumZ (fun e => false_negatives (stats e)) es.
Proof.
  revert tp. induction es as [|e es IH]; intros tp; simpl.
  - lia.
  - destruct (IH (add_point_metric tp e)) as (-> & -> & ->). simpl. lia.
Qed.

Lemma foldl_add_sample_counts (msa : list sample_metrics) acc :
  let r := foldl add_sample acc msa in
  tl_matched r.1 = tl_matched acc.1 + sumZ num_matched_labels msa /\
  tl_fp r.1 = tl_fp acc.1 + sumZ false_positive_labels msa /\
  tl_fn r.1 = tl_fn acc.1 + sumZ false_negative_labels msa /\
  tp_matched r.2 = tp_matched acc.2
    + sumZ (fun m => sumZ (fun e => num_matched (stats e)) (point_metrics_per_label m)) msa /\
  tp_fp r.2 = tp_fp acc.2
    + sumZ (fun m => sumZ (fun e => false_positives (stats e)) (point_metrics_per_label m)) msa /\
  tp_fn r.2 = tp_fn acc.2
    + sumZ (fun m => sumZ (fun e => false_negatives (stats e)) (point_metrics_per_label m)) msa.
Proof.
  revert acc. induction msa as [|m msa IH]; intros acc; simpl.
  - lia.
  - destruct (IH (add_sample acc m)) as (-> & -> & -> & -> & -> & ->). simpl.
    destruct (foldl_add_point_metric_counts (point_metrics_per_label m) acc.2)
      as (-> & -> & ->). lia.
Qed.

Lemma totals_counts_perm (msa msa' : list sample_metrics) :
  msa ≡ₚ msa' ->
  tl_matched (totals msa).1 = tl_matched (totals msa').1 /\
  tl_fp (totals msa).1 = tl_fp (totals msa').1 /\
  tl_fn (totals msa).1 = tl_fn (totals msa').1 /\
  tp_matched (totals msa).2 = tp_matched (totals msa').2 /\
  tp_fp (totals msa).2 = tp_fp (totals msa').2 /\
  tp_fn (totals msa).2 = tp_fn (totals msa').2.
Proof.
  intros Hperm. unfold totals.
  destruct (foldl_add_sample_counts msa
              ({| tl_matched := 0; tl_fp := 0; tl_fn := 0 |},
               {| tp_matched := 0; tp_fp := 0; tp_fn := 0;
                  tp_euclidean_distance := 0%float |}))
    as (-> & -> & -> & -> & -> & ->).
  destruct (foldl_add_sample_counts msa'
              ({| tl_matched := 0; tl_fp := 0; tl_fn := 0 |},
               {| tp_matched := 0; tp_fp := 0; tp_fn := 0;
                  tp_euclidean_distance := 0%float |}))
    as (-> & -> & -> & -> & -> & ->).
  rewrite !(sumZ_perm _ _ _ Hperm). auto 10.
Qed.

(** X10: the label-level precision, recall and F1 and the point-level
    precision, recall and F1 returned by [summarize_msa] do not depend on
    the order of the samples in the corpus. *)
Theorem X10_ratios_ignore_sample_order (msa msa' : list sample_metrics) :
  msa ≡ₚ msa' ->
  exists s s',
    summarize_msa msa = Ok s /\ summarize_msa msa' = Ok s' /\
    label_metrics s = label_metrics s' /\
    pm_precision (point_metrics s) = pm_precision (point_metrics s') /\
    pm_recall (point_metrics s) = pm_recall (point_metrics s') /\
    pm_f1 (point_metrics s) = pm_f1 (point_metrics s').
Proof.
  intros Hperm.
  destruct (totals_counts_perm msa msa' Hperm) as (E1 & E2 & E3 & E4 & E5 & E6).
  destruct (summarize_msa_Ok msa)
    as (lp & lr & lf & pp & pr & pf & avg & Hlp & Hlr & Hlf & Hpp & Hpr & Hpf & _ & ->).
  destruct (summarize_msa_Ok msa')
    as (lp' & lr' & lf' & pp' & pr' & pf' & avg' & Hlp' & Hlr' & Hlf' & Hpp' & Hpr'
        & Hpf' & _ & ->).
  rewrite E1, E2 in Hlp. rewrite E1, E3 in Hlr.
  rewrite E4, E5 in Hpp. rewrite E4, E6 in Hpr.
  assert (lp = lp') as -> by congruence. assert (lr = lr') as -> by congruence.
  assert (pp = pp') as -> by congruence. assert (pr = pr') as -> by congruence.
  assert (lf = lf') as -> by congruence. assert (pf = pf') as -> by congruence.
  eexists _, _. split; [reflexivity|]. split; [reflexivity|]. simpl. auto.
Qed.

Lemma X10_witness :
  exists s s',
    summarize_msa [metrics_sample; metrics_plain] = Ok s /\
    summarize_msa [metrics_plain; metrics_sample] = Ok s' /\
    label_metrics s = label_metrics s'.
Proof.
  destruct (X10_ratios_ignore_sample_order
              [metrics_sample; metrics_plain] [metrics_plain; metrics_sample])
    as (s & s' & Hs & Hs' & Hl & _).
  - apply perm_swap.
  - eauto.
Defined.

(** ** From the model's output to a label mapping *)

Lemma prediction_labels_snoc (pred : list Schema.Substructure) s :
  prediction_labels (pred ++ [s]) =
  <[ Schema.name s :=
       map (fun point => (Schema.x point, Schema.y point)) (Schema.points s) ]>
    (prediction_labels pred).
Proof. unfold prediction_labels. rewrite foldl_app. reflexivity. Qed.

Lemma prediction_labels_dom (pred : list Schema.Substructure) :
  dom (prediction_labels pred) = list_to_set (map Schema.name pred).
Proof.
  induction pred as [|s pred IH] using rev_ind.
  - reflexivity.
  - rewrite prediction_labels_snoc, dom_insert_L, IH, map_app. simpl.
    rewrite list_to_set_app_L. simpl.
    apply set_eq. intros l.
    rewrite !elem_of_union, elem_of_singleton, elem_of_empty. tauto.
Qed.

Lemma size_list_to_set_le (names : list string) :
  (size (list_to_set names : gset string) <= length names)%nat.
Proof.
  induction names as [|a names IH].
  { change (size (∅ : gset string) <= 0)%nat. rewrite size_empty. lia. }
  rewrite list_to_set_cons, size_union_alt, size_singleton. simpl length.
  assert (size (list_to_set names ∖ {[a]} : gset string)
          <= size (list_to_set names : gset string))%nat
    by (apply subseteq_size; intros b; rewrite elem_of_difference; tauto).
  lia.
Qed.

Lemma prediction_labels_size (pred : list Schema.Substructure) :
  len_set (dom (prediction_labels pred)) <= len pred.
Proof.
  rewrite prediction_labels_dom. unfold len_set, len. apply inj_le.
  rewrite <- (length_map Schema.name pred). apply size_list_to_set_le.
Qed.

(** X11: the labels of the mapping built from a prediction are exactly the
    names of its substructures; names that occur more than once give one
    label, so the mapping has at most as many labels as the prediction has
    substructures, and looking up a name that does not occur raises
    [KeyError]. *)
Theorem X11_prediction_labels_keys (pred : list Schema.Substructure) :
  dom (prediction_labels pred) = list_to_set (map Schema.name pred) /\
  len_set (dom (prediction_labels pred)) <= len pred /\
  forall l, l ∉ map Schema.name pred ->
    getitem (prediction_labels pred) l = Raise (KeyError l).
Proof.
  split; [apply prediction_labels_dom|]. split; [apply prediction_labels_size|].
  intros l Hl. unfold getitem.
  assert (Hnone : prediction_labels pred !! l = None).
  { apply not_elem_of_dom. rewrite prediction_labels_dom, elem_of_list_to_set.
    exact Hl. }
  rewrite Hnone. reflexivity.
Qed.

(** X12: when a prediction names a substructure more than once, the mapping
    keeps the points of the last substructure of that name; the points of
    the earlier ones are dropped. *)
Theorem X12_last_substructure_wins (before after : list Schema.Substructure) s :
  (forall s', s' ∈ after -> Schema.name s' <> Schema.name s) ->
  prediction_labels (before ++ s :: after) !! Schema.name s =
  Some (map (fun point => (Schema.x point, Schema.y point)) (Schema.points s)).
Proof.
  induction after as [|t after IH] using rev_ind; intros Hafter.
  - rewrite prediction_labels_snoc. apply lookup_insert_eq.
  - replace (before ++ s :: after ++ [t]) with ((before ++ s :: after) ++ [t])
      by (rewrite <- app_assoc; reflexivity).
    rewrite prediction_labels_snoc, lookup_insert_ne.
    + apply IH. intros s' Hs'. apply Hafter, elem_of_app. now left.
    + apply Hafter, elem_of_app. right. left.
Qed.

Lemma X12_witness :
  prediction_labels pred_twice !! "A" = Some [(3, 4)%float].
Proof.
  apply (X12_last_substructure_wins
           [ {| Schema.name := "A";
                Schema.points := [ {| Schema.x := 1; Schema.y := 2 |} ] |};
             {| Schema.name := "B"; Schema.points := [] |} ]%float
           []
           {| Schema.name := "A";
              Schema.points := [ {| Schema.x := 3; Schema.y := 4 |} ] |}%float).
  intros s' Hs'. inversion Hs'.
Defined.

(** X13: when the predictions handed to [compute_msa] are the mappings
    built by [main] from the model's output, every sample has
    [num_matched_labels + false_positive_labels] equal to the number of
    distinct substructure names of its prediction, which is at most the
    number of its substructures: a name predicted twice counts once. *)
Theorem X13_predicted_names_counted_once
    lsa gt_list (preds : list (list Schema.Substructure)) all_metrics i pred m :
  compute_msa lsa gt_list (map prediction_labels preds) = Ok all_metrics ->
  preds !! i = Some pred -> all_metrics !! i = Some m ->
  num_matched_labels m + false_positive_labels m
    = len_set (list_to_set (map Schema.name pred)) /\
  num_matched_labels m + false_positive_labels m <= len pred.
Proof.
  intros H Hpred Hm.
  destruct (compute_msa_lookup _ _ _ _ _ _ H Hm) as (gt & labels & _ & Hl & Hs).
  change (map prediction_labels preds) with (prediction_labels <$> preds) in Hl.
  rewrite list_lookup_fmap, Hpred in Hl. injection Hl as <-.
  apply compute_msa_sample_counts in Hs as (-> & -> & _).
  pose proof (prediction_labels_dom pred) as Hdom.
  pose proof (prediction_labels_size pred) as Hle.
  assert (Hsum : len_set (dom gt ∩ dom (prediction_labels pred))
                 + len_set (dom (prediction_labels pred) ∖ dom gt)
                 = len_set (dom (prediction_labels pred))).
  { unfold len_set. rewrite <- Nat2Z.inj_add. f_equal.
    rewrite (comm_L (∩) (dom gt)). apply size_intersection_difference. }
  rewrite Hsum. split; [now rewrite Hdom|exact Hle].
Qed.

Lemma X13_witness :
  exists m,
    compute_msa linear_sum_assignment_ref [gt_one_sided] (map prediction_labels [pred_twice])
      = Ok [m] /\
    num_matched_labels m + false_positive_labels m = 2 /\
    len pred_twice = 3.
Proof.
  eexists.
  match goal with
  | |- ?c = Ok [?m] /\ _ => assert (Hc : c = Ok [m]) by (vm_compute; reflexivity)
  end.
  split; [exact Hc|].
  match type of Hc with
  | _ = Ok [?m] =>
      destruct (X13_predicted_names_counted_once linear_sum_assignment_ref
                  [gt_one_sided] [pred_twice] [m] 0%nat pred_twice m) as [Hsum _]
  end.
  - exact Hc.
  - reflexivity.
  - reflexivity.
  - split; [|reflexivity]. rewrite Hsum. vm_compute. reflexivity.
Defined.
